(** * Registry Lens: the registry client, its throttler, the image cache and
    the orchestration composable, embedded from the JavaScript sources.

    Conventions of the embedding.
    - A JavaScript property that may be absent is an [option]; [None] stands
      for both [undefined] and [null] (the sources only ever test such values
      for truthiness or replace them by [null]).
    - Byte counts are JavaScript numbers holding integers; they are modelled
      as [Z].
    - A promise is modelled by its outcome: [Resolved v] or [Rejected e]. *)

From Stdlib Require Import ZArith List String Ascii Bool Lia.
From stdpp Require Import base option list gmap strings pretty.
Import ListNotations.

Local Open Scope Z_scope.
Local Open Scope string_scope.
Local Open Scope list_scope.

(** ** JavaScript values as far as the sources use them *)
Module Js.

(** The [message] of a JavaScript [Error]. *)
Definition Error := string.

(** The settlement of a promise (or the completion of a [try] body). *)
Inductive Outcome (A : Type) : Type :=
| Resolved (a : A)
| Rejected (e : Error).
Arguments Resolved {A} a.
Arguments Rejected {A} e.

(** Truthiness of a string that may be absent: absent and [""] are falsy. *)
Definition truthyS (o : option string) : bool :=
  match o with
  | Some s => negb (String.eqb s "")
  | None => false
  end.

(** Truthiness of a number that may be absent: absent and [0] are falsy. *)
Definition truthyZ (o : option Z) : bool :=
  match o with
  | Some n => negb (n =? 0)%Z
  | None => false
  end.

(** Truthiness of a boolean-or-[undefined] value. *)
Definition truthyB (o : option bool) : bool :=
  match o with
  | Some b => b
  | None => false
  end.

(** [a || b] on strings that may be absent. *)
Definition orS (a b : option string) : option string :=
  if truthyS a then a else b.

(** [x || 0] on a number that may be absent. *)
Definition orZero (o : option Z) : Z :=
  match o with
  | Some n => n
  | None => 0%Z
  end.

(** [x || null]: a falsy string becomes [null]. *)
Definition orNull (a : option string) : option string :=
  if truthyS a then a else None.

(** Interpolation of a possibly absent string into a template literal. *)
Definition interpolate (o : option string) : string :=
  match o with
  | Some s => s
  | None => "undefined"
  end.

End Js.
Import Js.

(** ** The documents exchanged with the registry *)

(** A content descriptor: a layer of a manifest, or its [config] reference. *)
Record Descriptor : Type := mkDescriptor {
  d_digest : option string;
  d_size : option Z
}.

(** The [platform] object of a manifest-list entry, or the nested [platform]
    object of a config blob ([p_os_version] is the key ['os.version']). *)
Record Platform : Type := mkPlatform {
  p_os : option string;
  p_architecture : option string;
  p_variant : option string;
  p_os_version : option string
}.

(** One element of the [manifests] array of a manifest list. *)
Record ManifestEntry : Type := mkEntry {
  m_platform : option Platform;
  m_digest : option string;
  m_size : option Z
}.

Record Manifest : Type := mkManifest {
  mediaType : option string;
  manifests : option (list ManifestEntry);
  layers : option (list Descriptor);
  config : option Descriptor
}.

(** The image config blob. *)
Record Config : Type := mkConfig {
  c_created : option string;
  c_architecture : option string;
  c_os : option string;
  c_author : option string;
  c_docker_version : option string;
  c_variant : option string;
  c_os_version : option string;
  c_platform : option Platform
}.

(** An element of [platforms] in the resolved image info. *)
Record PlatformDescriptor : Type := mkPD {
  pd_os : option string;
  pd_architecture : option string;
  pd_variant : option string;
  pd_digest : option string;
  pd_size : option Z
}.

(** The object returned by [getImageInfo]. *)
Record ImageInfo : Type := mkImageInfo {
  manifest : Manifest;
  config_blob : option Config;
  totalSize : Z;
  platforms : list PlatformDescriptor;
  isMultiPlatform : bool;
  created : option string;
  architecture : option string;
  os : option string;
  author : option string;
  dockerVersion : option string;
  firstManifest : option Manifest
}.

(** ** Manifest classification *)

Definition listMediaTypes : list string :=
  [ "application/vnd.docker.distribution.manifest.list.v2+json";
    "application/vnd.oci.image.index.v1+json" ].

(** [Array.prototype.includes] on strings; an absent needle is [undefined],
    which no element of an array of strings equals. *)
Definition includes (l : list string) (x : option string) : bool :=
  match x with
  | Some s => existsb (String.eqb s) l
  | None => false
  end.

(** [isManifestList]: [includes(...) || (manifest.manifests && !manifest.layers)].
    The right operand evaluates to [manifest.manifests] itself when that is
    [undefined], so the function returns [undefined] ([None]) there. An array,
    even an empty one, is truthy. *)
Definition isManifestList (manifest : Manifest) : option bool :=
  if includes listMediaTypes (mediaType manifest) then Some true
  else match manifests manifest with
       | None => None
       | Some _ => Some (negb (bool_decide (is_Some (layers manifest))))
       end.

(** ** The request throttler: [processQueue] and [enqueueRequest]

    [processQueue] is an [async] function: it runs until its next [await] and
    is resumed by the event loop. The embedding is the state machine of those
    resumptions. [Task] is the queued record [{resolve, reject, requestFn}];
    [Value] is what a request resolves with. *)
Module Throttler.

Definition REQUEST_DELAY : Z := 100.

Section Machine.
Context {Task Value : Type}.

(** What the throttler does to the outside. *)
Inductive Event : Type :=
| Call (t : Task)                  (* [requestFn()] of [t] is invoked *)
| Resolve (t : Task) (v : Value)   (* [resolve(result)] of [t] *)
| Reject (t : Task) (e : Error)    (* [reject(error)] of [t] *)
| Sleep (ms : Z).                  (* [setTimeout(r, ms)] is awaited *)

(** Where the one activation of the [while] loop is suspended. *)
Inductive Suspended : Type :=
| NotRunning
| AwaitingRequest (t : Task)
| AwaitingDelay.

Record State : Type := mkState {
  requestQueue : list Task;
  isProcessing : bool;
  driver : Suspended
}.

(** The constructor's state. *)
Definition idle : State :=
  {| requestQueue := []; isProcessing := false; driver := NotRunning |}.

(** What the event loop delivers to the throttler. *)
Inductive Input : Type :=
| Enqueue (t : Task)               (* a caller invokes [enqueueRequest] *)
| Settled (o : Outcome Value)      (* the awaited request settles or throws *)
| TimerFired.                      (* the awaited timeout fires *)

(** From the [while] test to the next [await], or to the end of the loop and
    [this.isProcessing = false]. *)
Definition whileLoop (st : State) : State * list Event :=
  match requestQueue st with
  | [] =>
      ({| requestQueue := []; isProcessing := false; driver := NotRunning |}, [])
  | t :: rest =>
      ({| requestQueue := rest; isProcessing := isProcessing st;
          driver := AwaitingRequest t |}, [Call t])
  end.

Definition processQueue (st : State) : State * list Event :=
  if isProcessing st || (length (requestQueue st) =? 0)%nat then (st, [])
  else whileLoop {| requestQueue := requestQueue st; isProcessing := true;
                    driver := driver st |}.

Definition enqueueRequest (t : Task) (st : State) : State * list Event :=
  processQueue {| requestQueue := requestQueue st ++ [t];
                  isProcessing := isProcessing st; driver := driver st |}.

(** [resolve(result)] in the [try] body, [reject(error)] in the [catch]. *)
Definition settle (t : Task) (o : Outcome Value) : Event :=
  match o with
  | Resolved v => Resolve t v
  | Rejected e => Reject t e
  end.

(** Resumption after [await requestFn()]. *)
Definition afterRequest (o : Outcome Value) (st : State) : State * list Event :=
  match driver st with
  | AwaitingRequest t =>
      if (0 <? length (requestQueue st))%nat
      then ({| requestQueue := requestQueue st; isProcessing := isProcessing st;
               driver := AwaitingDelay |}, [settle t o; Sleep REQUEST_DELAY])
      else let '(st', evs) := whileLoop st in (st', settle t o :: evs)
  | _ => (st, [])
  end.

(** Resumption after [await new Promise(r => setTimeout(r, REQUEST_DELAY))]. *)
Definition afterDelay (st : State) : State * list Event :=
  match driver st with
  | AwaitingDelay => whileLoop st
  | _ => (st, [])
  end.

Definition step (i : Input) (st : State) : State * list Event :=
  match i with
  | Enqueue t => enqueueRequest t st
  | Settled o => afterRequest o st
  | TimerFired => afterDelay st
  end.

Fixpoint run (ins : list Input) (st : State) : State * list Event :=
  match ins with
  | [] => (st, [])
  | i :: ins' =>
      let '(st1, evs1) := step i st in
      let '(st2, evs2) := run ins' st1 in
      (st2, evs1 ++ evs2)
  end.

(** *** Observations on inputs and traces *)

(** The tasks submitted, in submission order. *)
Fixpoint enqueued (ins : list Input) : list Task :=
  match ins with
  | [] => []
  | Enqueue t :: ins' => t :: enqueued ins'
  | _ :: ins' => enqueued ins'
  end.

(** The tasks whose request was invoked, in invocation order. *)
Fixpoint called (tr : list Event) : list Task :=
  match tr with
  | [] => []
  | Call t :: tr' => t :: called tr'
  | _ :: tr' => called tr'
  end.

(** The durations of the delays waited. *)
Fixpoint delays (tr : list Event) : list Z :=
  match tr with
  | [] => []
  | Sleep ms :: tr' => ms :: delays tr'
  | _ :: tr' => delays tr'
  end.

(** The number of requests in flight after a trace, when the trace never has
    two requests in flight and never settles a request that is not. *)
Fixpoint inFlight (busy : bool) (tr : list Event) : option bool :=
  match tr with
  | [] => Some busy
  | Call _ :: tr' => if busy then None else inFlight true tr'
  | Resolve _ _ :: tr' | Reject _ _ :: tr' =>
      if busy then inFlight false tr' else None
  | Sleep _ :: tr' => inFlight busy tr'
  end.

Definition busy (st : State) : bool :=
  match driver st with
  | AwaitingRequest _ => true
  | _ => false
  end.

(** The states the machine can be in: the loop is suspended exactly while
    [isProcessing] is set, nothing waits in the queue of a stopped loop, and
    the loop only sleeps before a task that is waiting. *)
Definition consistent (st : State) : Prop :=
  match driver st with
  | NotRunning => requestQueue st = [] /\ isProcessing st = false
  | AwaitingRequest _ => isProcessing st = true
  | AwaitingDelay => isProcessing st = true /\ requestQueue st <> []
  end.

(** A batch: every task is submitted before the first request settles, then
    each request settles with its outcome and each timeout fires. *)
Fixpoint completions (os : list (Outcome Value)) : list Input :=
  match os with
  | [] => []
  | [o] => [Settled o]
  | o :: os' => Settled o :: TimerFired :: completions os'
  end.

Definition batch (jobs : list (Task * Outcome Value)) : list Input :=
  map (fun j => Enqueue (fst j)) jobs ++ completions (map snd jobs).

(** The schedule the throttler is specified to follow on a batch. *)
Fixpoint spec_schedule (jobs : list (Task * Outcome Value)) : list Event :=
  match jobs with
  | [] => []
  | [(t, o)] => [Call t; settle t o]
  | (t, o) :: jobs' => Call t :: settle t o :: Sleep 100 :: spec_schedule jobs'
  end.

End Machine.
End Throttler.

(** ** The image cache over [localStorage] ([imageCache.js])

    [localStorage] is a finite map from keys to strings. [JSON.stringify] and
    [JSON.parse] on the wrapper [{value, timestamp}] are parameters
    ([parse] answers [None] where [JSON.parse] throws), and so is the
    browser's decision to refuse a write ([setItem] throws on quota). [now] is
    the reading of [Date.now()]. *)
Module ImageCache.

Definition CACHE_PREFIX : string := "registry_lens_cache:".
Definition CACHE_TTL : Z := 24 * 60 * 60 * 1000.
Definition IMAGE_INFO : string := "image_info".
Definition TAGS : string := "tags".
Definition REPOSITORIES : string := "repositories".

Record CacheEntry (Val : Type) : Type := mkEntry {
  value : Val;
  timestamp : Z
}.
Arguments mkEntry {Val} value timestamp.
Arguments value {Val} c.
Arguments timestamp {Val} c.

Definition getKey (type identifier : string) : string :=
  CACHE_PREFIX +:+ type +:+ ":" +:+ identifier.

Section Cache.
Context {Val : Type}.
Variable stringify : CacheEntry Val -> string.
Variable parse : string -> option (CacheEntry Val).
Variable quotaExceeded : gmap string string -> string -> string -> bool.

(** [localStorage.setItem]; [None] when it throws. *)
Definition setItem (key data : string) (ls : gmap string string)
  : option (gmap string string) :=
  if quotaExceeded ls key data then None else Some (<[key := data]> ls).

Definition saveImageInfo (repository tag : string) (imageInfo : Val) (now : Z)
  (ls : gmap string string) : gmap string string :=
  let key := getKey IMAGE_INFO (repository +:+ ":" +:+ tag) in
  let data := {| value := imageInfo; timestamp := now |} in
  match setItem key (stringify data) ls with
  | Some ls' => ls'
  | None => ls                                   (* console.warn *)
  end.

Definition clearImageInfo (repository tag : string) (ls : gmap string string)
  : gmap string string :=
  let key := getKey IMAGE_INFO (repository +:+ ":" +:+ tag) in
  delete key ls.

Definition getImageInfo (repository tag : string) (now : Z)
  (ls : gmap string string) : option Val * gmap string string :=
  let key := getKey IMAGE_INFO (repository +:+ ":" +:+ tag) in
  match ls !! key with
  | None => (None, ls)
  | Some cached =>
      if String.eqb cached "" then (None, ls)
      else match parse cached with
           | None => (None, ls)                  (* console.warn *)
           | Some data =>
               if now - timestamp data >? CACHE_TTL
               then (None, clearImageInfo repository tag ls)
               else (Some (value data), ls)
           end
  end.

Definition saveTags (repository : string) (tags : Val) (now : Z)
  (ls : gmap string string) : gmap string string :=
  let key := getKey TAGS repository in
  let data := {| value := tags; timestamp := now |} in
  match setItem key (stringify data) ls with
  | Some ls' => ls'
  | None => ls
  end.

Definition clearTags (repository : string) (ls : gmap string string)
  : gmap string string :=
  let key := getKey TAGS repository in
  delete key ls.

Definition getTags (repository : string) (now : Z) (ls : gmap string string)
  : option Val * gmap string string :=
  let key := getKey TAGS repository in
  match ls !! key with
  | None => (None, ls)
  | Some cached =>
      if String.eqb cached "" then (None, ls)
      else match parse cached with
           | None => (None, ls)
           | Some data =>
               if now - timestamp data >? CACHE_TTL
               then (None, clearTags repository ls)
               else (Some (value data), ls)
           end
  end.

Definition saveRepositories (repositories : Val) (now : Z)
  (ls : gmap string string) : gmap string string :=
  let key := getKey REPOSITORIES "list" in
  let data := {| value := repositories; timestamp := now |} in
  match setItem key (stringify data) ls with
  | Some ls' => ls'
  | None => ls
  end.

Definition clearRepositories (ls : gmap string string) : gmap string string :=
  let key := getKey REPOSITORIES "list" in
  delete key ls.

Definition getRepositories (now : Z) (ls : gmap string string)
  : option Val * gmap string string :=
  let key := getKey REPOSITORIES "list" in
  match ls !! key with
  | None => (None, ls)
  | Some cached =>
      if String.eqb cached "" then (None, ls)
      else match parse cached with
           | None => (None, ls)
           | Some data =>
               if now - timestamp data >? CACHE_TTL
               then (None, clearRepositories ls)
               else (Some (value data), ls)
           end
  end.

(** The three namespaces of the cache, each with the identifier it is keyed
    by, and the [save]/[get] pair of each. *)
Inductive Namespace : Type :=
| ImageInfoOf (repository tag : string)
| TagsOf (repository : string)
| RepositoryList.

Definition keyOf (ns : Namespace) : string :=
  match ns with
  | ImageInfoOf repository tag => getKey IMAGE_INFO (repository +:+ ":" +:+ tag)
  | TagsOf repository => getKey TAGS repository
  | RepositoryList => getKey REPOSITORIES "list"
  end.

Definition save (ns : Namespace) (v : Val) (now : Z) (ls : gmap string string)
  : gmap string string :=
  match ns with
  | ImageInfoOf repository tag => saveImageInfo repository tag v now ls
  | TagsOf repository => saveTags repository v now ls
  | RepositoryList => saveRepositories v now ls
  end.

Definition get (ns : Namespace) (now : Z) (ls : gmap string string)
  : option Val * gmap string string :=
  match ns with
  | ImageInfoOf repository tag => getImageInfo repository tag now ls
  | TagsOf repository => getTags repository now ls
  | RepositoryList => getRepositories now ls
  end.

End Cache.
End ImageCache.

(** ** The running system: credential store, registry client, composable

    One logical control flow: every [await] of these functions is followed to
    its settlement, and the functions are state transformers over [Sys]. *)

Record Credentials : Type := mkCredentials {
  registryUrl : option string;
  username : option string;
  password : option string
}.

(** The document kept in [sessionStorage] under ['registry-credentials']. *)
Record SessionData : Type := mkSessionData {
  s_registryUrl : option string;
  s_username : option string;
  s_password : option string;
  useCredentialAPI : bool
}.

Record StorageInfo : Type := mkStorageInfo {
  method : string;
  description : string;
  secure : bool
}.

(** The body of a catalog page and of a tag list. *)
Record Catalog : Type := mkCatalog { repositories_of : option (list string) }.
Record TagList : Type := mkTagList { tl_tags : option (list string) }.

(** The requests of the client, as [request] receives them. *)
Inductive Endpoint : Type :=
| EpPing
| EpCatalog (n : Z) (last : string)
| EpTags (repository : string)
| EpManifest (repository reference : string)
| EpPlatformManifest (repository reference : string)
| EpBlob (repository digest : string).

(** What the system logs of its own traffic. *)
Inductive Traffic : Type :=
| Queued                          (* one call of [enqueueRequest] *)
| Fetched (ep : Endpoint).        (* one call of [request] on a configured client *)

(** The reactive state of [useRegistry.js]. *)
Record UiState : Type := mkUiState {
  ui_isInitializing : bool;
  ui_isConnected : bool;
  ui_isLoading : bool;
  ui_error : option string;
  ui_repositories : list string;
  ui_selectedRepo : option string;
  ui_tags : gmap string (list string);
  ui_manifests : gmap string Manifest;
  ui_imageInfos : gmap string ImageInfo;
  ui_filter : string;
  ui_storageInfo : option StorageInfo;
  ui_registryUrl : option string
}.

Definition initialUi : UiState :=
  {| ui_isInitializing := true; ui_isConnected := false; ui_isLoading := false;
     ui_error := None; ui_repositories := []; ui_selectedRepo := None;
     ui_tags := ∅; ui_manifests := ∅; ui_imageInfos := ∅; ui_filter := "";
     ui_storageInfo := None; ui_registryUrl := None |}.

Section System.
Context {World : Type}.

(** The environment: the browser and the registry. Each answer may depend on
    and change the [World]. A registry answer is what [request] makes of the
    HTTP response: the parsed body, or the [Error] for a failed [fetch] or a
    non-2xx status. *)
Record Env : Type := mkEnv {
  supportsCredentialAPI : bool;
  credentials_store : string -> string -> World -> Outcome unit * World;
  credentials_get : World -> Outcome (option (string * string)) * World;
  preventSilentAccess : World -> Outcome unit * World;
  session_setItem_throws : World -> option Error;
  respond_ping : Credentials -> World -> Outcome unit * World;
  respond_catalog : Credentials -> Z -> string -> World -> Outcome Catalog * World;
  respond_tags : Credentials -> string -> World -> Outcome TagList * World;
  respond_manifest :
    Credentials -> bool -> string -> string -> World -> Outcome Manifest * World;
  respond_blob : Credentials -> string -> string -> World -> Outcome Config * World;
  Date_now : World -> Z;
  quotaExceeded : gmap string string -> string -> string -> bool;
  stringify_names : ImageCache.CacheEntry (list string) -> string;
  parse_names : string -> option (ImageCache.CacheEntry (list string));
  stringify_info : ImageCache.CacheEntry ImageInfo -> string;
  parse_info : string -> option (ImageCache.CacheEntry ImageInfo)
}.

Record Sys : Type := mkSys {
  credentials : option Credentials;          (* [registryApi.credentials] *)
  memoryCredentials : option Credentials;    (* [credentialStore.memoryCredentials] *)
  sessionStorage : option SessionData;       (* item ['registry-credentials'] *)
  localStorage : gmap string string;
  state : UiState;
  traffic : list Traffic;
  world : World
}.

Definition set_credentials (c : option Credentials) (s : Sys) : Sys :=
  mkSys c (memoryCredentials s) (sessionStorage s) (localStorage s) (state s)
        (traffic s) (world s).
Definition set_memoryCredentials (c : option Credentials) (s : Sys) : Sys :=
  mkSys (credentials s) c (sessionStorage s) (localStorage s) (state s)
        (traffic s) (world s).
Definition set_sessionStorage (d : option SessionData) (s : Sys) : Sys :=
  mkSys (credentials s) (memoryCredentials s) d (localStorage s) (state s)
        (traffic s) (world s).
Definition set_localStorage (ls : gmap string string) (s : Sys) : Sys :=
  mkSys (credentials s) (memoryCredentials s) (sessionStorage s) ls (state s)
        (traffic s) (world s).
Definition set_state (u : UiState) (s : Sys) : Sys :=
  mkSys (credentials s) (memoryCredentials s) (sessionStorage s)
        (localStorage s) u (traffic s) (world s).
Definition set_world (w : World) (s : Sys) : Sys :=
  mkSys (credentials s) (memoryCredentials s) (sessionStorage s)
        (localStorage s) (state s) (traffic s) w.
Definition log (t : Traffic) (s : Sys) : Sys :=
  mkSys (credentials s) (memoryCredentials s) (sessionStorage s)
        (localStorage s) (state s) (traffic s ++ [t]) (world s).

(** *** The monad of asynchronous functions

    An asynchronous function maps the system state to its settlement and the
    state it leaves; [None] is a function whose promise never settles. *)

Definition M (A : Type) : Type := Sys -> option (Outcome A * Sys).

Definition ret {A} (a : A) : M A := fun s => Some (Resolved a, s).

Definition throw {A} (e : Error) : M A := fun s => Some (Rejected e, s).

Definition bind {A B} (c : M A) (k : A -> M B) : M B :=
  fun s =>
    match c s with
    | Some (Resolved a, s') => k a s'
    | Some (Rejected e, s') => Some (Rejected e, s')
    | None => None
    end.

(** [try { c } catch (e) { h e }]: the effects of [c] up to the throw stay. *)
Definition tryCatch {A} (c : M A) (h : Error -> M A) : M A :=
  fun s =>
    match c s with
    | Some (Resolved a, s') => Some (Resolved a, s')
    | Some (Rejected e, s') => h e s'
    | None => None
    end.

(** [try { c } finally { f }]: [f] runs after [c] however [c] completed, and
    the completion of [c] stands unless [f] itself throws. *)
Definition tryFinally {A} (c : M A) (f : M unit) : M A :=
  fun s =>
    match c s with
    | Some (o, s') =>
        match f s' with
        | Some (Resolved _, s'') => Some (o, s'')
        | Some (Rejected e, s'') => Some (Rejected e, s'')
        | None => None
        end
    | None => None
    end.

Definition modify (f : Sys -> Sys) : M unit := fun s => Some (Resolved tt, f s).

Definition gets {A} (f : Sys -> A) : M A := fun s => Some (Resolved (f s), s).

(** A question to the environment. *)
Definition ask {A} (q : World -> Outcome A * World) : M A :=
  fun s => let '(o, w) := q (world s) in Some (o, set_world w s).

End System.

Arguments Env World : clear implicits.
Arguments Sys World : clear implicits.
Arguments M World A : clear implicits.

Declare Scope js_scope.
Delimit Scope js_scope with js.
Notation "'do' x <- c ; k" := (bind c (fun x => k))
  (at level 10, x name, c at level 100, k at level 200) : js_scope.
Notation "c ;; k" := (bind c (fun _ => k))
  (at level 100, k at level 200, right associativity) : js_scope.
Local Open Scope js_scope.

(** ** The credential store ([credentialStore.js]) *)
Module CredentialStore.
Section CredentialStore.
Context {World : Type} (env : Env World).

(** [sessionStorage.setItem(STORAGE_KEY, JSON.stringify(d))]. *)
Definition session_setItem (d : SessionData) : M World unit :=
  fun s =>
    match session_setItem_throws env (world s) with
    | Some e => Some (Rejected e, s)
    | None => Some (Resolved tt, set_sessionStorage (Some d) s)
    end.

(** [save] answers the [method] of the object it returns. *)
Definition save (registryUrl username password : option string) : M World string :=
  let credentials := mkCredentials registryUrl username password in
  modify (set_memoryCredentials (Some credentials)) ;;
  do viaApi <-
    (if supportsCredentialAPI env && truthyS username && truthyS password
     then tryCatch
            (ask (credentials_store env (interpolate username) (interpolate password)) ;;
             session_setItem (mkSessionData registryUrl None None true) ;;
             ret (Some "credential-api"))
            (fun _ => ret None)                      (* console.warn *)
     else ret None);
  match viaApi with
  | Some m => ret m
  | None =>
      session_setItem
        (mkSessionData registryUrl (orNull username) (orNull password) false) ;;
      ret "session-storage"
  end.

(** [JSON.parse] of the stored item cannot fail here: the item is kept
    parsed. The outer [try] therefore only guards the inner block. *)
Definition load : M World (option Credentials) :=
  do mem <- gets memoryCredentials;
  match mem with
  | Some c => ret (Some c)
  | None =>
      do stored <- gets sessionStorage;
      match stored with
      | None => ret None
      | Some data =>
          do viaApi <-
            (if useCredentialAPI data && supportsCredentialAPI env
             then tryCatch
                    (do cred <- ask (credentials_get env);
                     match cred with
                     | Some (id, pw) =>
                         let c := mkCredentials (s_registryUrl data) (Some id) (Some pw) in
                         modify (set_memoryCredentials (Some c)) ;;
                         ret (Some c)
                     | None => ret None
                     end)
                    (fun _ => ret None)              (* console.warn *)
             else ret None);
          match viaApi with
          | Some c => ret (Some c)
          | None =>
              if truthyS (s_registryUrl data)
              then
                let c := mkCredentials (s_registryUrl data)
                           (Some (default "" (orNull (s_username data))))
                           (Some (default "" (orNull (s_password data)))) in
                modify (set_memoryCredentials (Some c)) ;;
                ret (Some c)
              else ret None
          end
      end
  end.

Definition clear : M World unit :=
  modify (set_memoryCredentials None) ;;
  modify (set_sessionStorage None) ;;
  if supportsCredentialAPI env
  then tryCatch (ask (preventSilentAccess env)) (fun _ => ret tt)
  else ret tt.

Definition getSync (s : Sys World) : option Credentials := memoryCredentials s.

Definition getStorageInfo : StorageInfo :=
  if supportsCredentialAPI env
  then mkStorageInfo "Credential Management API"
         "Credentials are securely managed by your browser and can integrate with password managers."
         true
  else mkStorageInfo "Session Storage"
         "Credentials are stored only for this browser session and will be cleared when you close the browser."
         true.

End CredentialStore.
End CredentialStore.

(** ** The registry client ([registryApi.js]) *)
Module RegistryApi.

(** The object [testConnection] returns. *)
Record Connection : Type := mkConnection {
  success : bool;
  error : option string
}.

Section RegistryApi.
Context {World : Type} (env : Env World).

Definition initCredentials : M World (option Credentials) :=
  do c <- CredentialStore.load env;
  modify (set_credentials c) ;;
  gets credentials.



(** [this.credentials || credentialStore.getSync()]. *)
Definition getCredentials (s : Sys World) : option Credentials :=
  match credentials s with
  | Some c => Some c
  | None => CredentialStore.getSync s
  end.

(** [creds?.registryUrl != null]. *)
Definition isAuthenticated (s : Sys World) : bool :=
  match getCredentials s with
  | Some c => bool_decide (is_Some (registryUrl c))
  | None => false
  end.

Definition getStorageInfo : StorageInfo := CredentialStore.getStorageInfo env.

(** The throttler as one control flow sees it: it submits a request to an
    idle throttler and awaits it, so the request is invoked at once and its
    outcome is handed back (lemma [idle_roundtrip] below). *)
Definition enqueueRequest {A} (requestFn : M World A) : M World A :=
  modify (log Queued) ;; requestFn.

(** [request]: the check of the configuration is the client's; the exchange
    and the reading of the response are the environment's [respond]. *)
Definition request {A} (ep : Endpoint)
  (respond : Credentials -> World -> Outcome A * World) : M World A :=
  do creds <- gets getCredentials;
  match creds with
  | Some c =>
      if truthyS (registryUrl c)
      then modify (log (Fetched ep)) ;; ask (respond c)
      else throw "Registry URL not configured"
  | None => throw "Registry URL not configured"
  end.

Definition testConnection : M World Connection :=
  tryCatch
    (request EpPing (respond_ping env) ;; ret (mkConnection true None))
    (fun e => ret (mkConnection false (Some e))).

Definition getCatalog (n : Z) (last : string) : M World Catalog :=
  request (EpCatalog n last) (fun c => respond_catalog env c n last).

Definition pageSize : nat := 100.

(** The body of the [do ... while (last)] loop after its [await]: the new
    [repositories] and the new [last]. *)
Definition nextPage (repositories : list string) (result : Catalog)
  : list string * string :=
  match repositories_of result with
  | Some page =>
      if (0 <? length page)%nat
      then (repositories ++ page,
            if (length page =? pageSize)%nat then List.last page "" else "")
      else (repositories, "")
  | None => (repositories, "")
  end.

(** The [do ... while (last)] loop of [getAllRepositories]. It has no bound
    of its own: [fuel] bounds the number of rounds, and the promise is still
    pending when it is spent. *)
Fixpoint paginate (fuel : nat) (repositories : list string) (last : string)
  : M World (list string) :=
  match fuel with
  | O => fun _ => None
  | S fuel' =>
      do result <- enqueueRequest (getCatalog (Z.of_nat pageSize) last);
      let '(repositories', last') := nextPage repositories result in
      if String.eqb last' "" then ret repositories'
      else paginate fuel' repositories' last'
  end.

Definition getAllRepositories (fuel : nat) : M World (list string) :=
  paginate fuel [] "".

Definition getTags (repository : string) : M World TagList :=
  enqueueRequest
    (request (EpTags repository) (fun c => respond_tags env c repository)).

Definition getManifest (repository tag : string) : M World Manifest :=
  enqueueRequest
    (request (EpManifest repository tag)
       (fun c => respond_manifest env c false repository tag)).

Definition getBlob (repository digest : string) : M World Config :=
  enqueueRequest
    (request (EpBlob repository digest)
       (fun c => respond_blob env c repository digest)).

(** [m => m.platform] as a filter. *)
Definition hasPlatform (m : ManifestEntry) : bool :=
  match m_platform m with
  | Some _ => true
  | None => false
  end.

(** The object built by the [map] over the filtered entries. *)
Definition describe (m : ManifestEntry) : PlatformDescriptor :=
  {| pd_os := m_platform m ≫= p_os;
     pd_architecture := m_platform m ≫= p_architecture;
     pd_variant := orNull (m_platform m ≫= p_variant);
     pd_digest := m_digest m;
     pd_size := m_size m |}.

(** The request for the manifest of one platform, by its digest and with the
    [Accept] header of single manifests only. *)
Definition getPlatformManifest (repository firstDigest : string) : M World Manifest :=
  enqueueRequest
    (request (EpPlatformManifest repository firstDigest)
       (fun c => respond_manifest env c true repository firstDigest)).

(** The [try] block of the manifest-list branch: the first platform's
    manifest, then its config blob. It yields [(config, firstManifestInfo)]. *)
Definition fetchFirstPlatform (repository : string) (first : PlatformDescriptor)
  : M World (option Config * option Manifest) :=
  let firstDigest := pd_digest first in
  do platformManifest <- getPlatformManifest repository (interpolate firstDigest);
  do config <-
    (if truthyS (config platformManifest ≫= d_digest)
     then do c <- getBlob repository (interpolate (config platformManifest ≫= d_digest));
          ret (Some c)
     else ret None);
  ret (config, Some platformManifest).

(** The manifest-list branch: [platforms], [totalSize], the guarded fetch of
    the first platform and the object returned. *)
Definition listPlatforms (manifest : Manifest) : list PlatformDescriptor :=
  match manifests manifest with
  | Some ms => map describe (List.filter hasPlatform ms)
  | None => []
  end.

Definition listTotalSize (manifest : Manifest) : Z :=
  match manifests manifest with
  | Some ms => fold_left (fun sum m => sum + orZero (m_size m)) ms 0
  | None => 0
  end.

Definition tryFirstPlatform (repository : string)
  (platforms : list PlatformDescriptor)
  : M World (option Config * option Manifest) :=
  match platforms with
  | first :: _ =>
      tryCatch (fetchFirstPlatform repository first)
               (fun _ => ret (None, None))             (* console.warn *)
  | [] => ret (None, None)
  end.

Definition multiPlatformInfo (manifest : Manifest) (config : option Config)
  (firstManifestInfo : option Manifest) : ImageInfo :=
  let platforms := listPlatforms manifest in
  {| manifest := manifest;
     config_blob := config;
     totalSize := listTotalSize manifest;
     platforms := platforms;
     isMultiPlatform := true;
     created := orNull (config ≫= c_created);
     architecture :=
       orS (orS (head platforms ≫= pd_architecture) (config ≫= c_architecture)) None;
     os := orS (orS (head platforms ≫= pd_os) (config ≫= c_os)) None;
     author := orNull (config ≫= c_author);
     dockerVersion := orNull (config ≫= c_docker_version);
     firstManifest := firstManifestInfo |}.

(** The single-platform branch: [totalSize], the guarded fetch of the config
    blob, [platforms] and the object returned. *)
Definition singleTotalSize (manifest : Manifest) : Z :=
  let totalSize :=
    match layers manifest with
    | Some ls => fold_left (fun sum layer => sum + orZero (d_size layer)) ls 0
    | None => 0
    end in
  if truthyZ (config manifest ≫= d_size)
  then totalSize + orZero (config manifest ≫= d_size)
  else totalSize.

Definition tryConfigBlob (repository : string) (manifest : Manifest)
  : M World (option Config) :=
  if truthyS (config manifest ≫= d_digest)
  then tryCatch
         (do c <- getBlob repository (interpolate (config manifest ≫= d_digest));
          ret (Some c))
         (fun _ => ret None)                           (* console.warn *)
  else ret None.

Definition singlePlatforms (config : option Config) : list PlatformDescriptor :=
  match config with
  | Some c =>
      let platformData :=
        match c_platform c with
        | Some p => p
        | None => mkPlatform (c_os c) (c_architecture c) (c_variant c) (c_os_version c)
        end in
      [ {| pd_os := orS (p_os platformData) (c_os c);
           pd_architecture := orS (p_architecture platformData) (c_architecture c);
           pd_variant :=
             orS (orS (orS (p_variant platformData) (c_variant c))
                      (p_os_version platformData)) None;
           pd_digest := None;
           pd_size := None |} ]
  | None => []
  end.

Definition singlePlatformInfo (manifest : Manifest) (config : option Config)
  : ImageInfo :=
  {| manifest := manifest;
     config_blob := config;
     totalSize := singleTotalSize manifest;
     platforms := singlePlatforms config;
     isMultiPlatform := false;
     created := orNull (config ≫= c_created);
     architecture := orNull (config ≫= c_architecture);
     os := orNull (config ≫= c_os);
     author := orNull (config ≫= c_author);
     dockerVersion := orNull (config ≫= c_docker_version);
     firstManifest := None |}.

Definition getImageInfo (repository tag : string) : M World ImageInfo :=
  do manifest <- getManifest repository tag;
  if truthyB (isManifestList manifest)
  then
    do fetched <- tryFirstPlatform repository (listPlatforms manifest);
    ret (multiPlatformInfo manifest (fst fetched) (snd fetched))
  else
    do config <- tryConfigBlob repository manifest;
    ret (singlePlatformInfo manifest config).

End RegistryApi.
End RegistryApi.

(** ** The composable ([useRegistry.js]) *)
Module UseRegistry.

(** Assignments to the fields of the reactive [state]. *)
Definition set_isInitializing (b : bool) (u : UiState) : UiState :=
  mkUiState b (ui_isConnected u) (ui_isLoading u) (ui_error u)
    (ui_repositories u) (ui_selectedRepo u) (ui_tags u) (ui_manifests u)
    (ui_imageInfos u) (ui_filter u) (ui_storageInfo u) (ui_registryUrl u).
Definition set_isConnected (b : bool) (u : UiState) : UiState :=
  mkUiState (ui_isInitializing u) b (ui_isLoading u) (ui_error u)
    (ui_repositories u) (ui_selectedRepo u) (ui_tags u) (ui_manifests u)
    (ui_imageInfos u) (ui_filter u) (ui_storageInfo u) (ui_registryUrl u).
Definition set_isLoading (b : bool) (u : UiState) : UiState :=
  mkUiState (ui_isInitializing u) (ui_isConnected u) b (ui_error u)
    (ui_repositories u) (ui_selectedRepo u) (ui_tags u) (ui_manifests u)
    (ui_imageInfos u) (ui_filter u) (ui_storageInfo u) (ui_registryUrl u).
Definition set_error (e : option string) (u : UiState) : UiState :=
  mkUiState (ui_isInitializing u) (ui_isConnected u) (ui_isLoading u) e
    (ui_repositories u) (ui_selectedRepo u) (ui_tags u) (ui_manifests u)
    (ui_imageInfos u) (ui_filter u) (ui_storageInfo u) (ui_registryUrl u).
Definition set_repositories (l : list string) (u : UiState) : UiState :=
  mkUiState (ui_isInitializing u) (ui_isConnected u) (ui_isLoading u) (ui_error u)
    l (ui_selectedRepo u) (ui_tags u) (ui_manifests u)
    (ui_imageInfos u) (ui_filter u) (ui_storageInfo u) (ui_registryUrl u).
Definition set_tags (t : gmap string (list string)) (u : UiState) : UiState :=
  mkUiState (ui_isInitializing u) (ui_isConnected u) (ui_isLoading u) (ui_error u)
    (ui_repositories u) (ui_selectedRepo u) t (ui_manifests u)
    (ui_imageInfos u) (ui_filter u) (ui_storageInfo u) (ui_registryUrl u).
Definition set_manifests (m : gmap string Manifest) (u : UiState) : UiState :=
  mkUiState (ui_isInitializing u) (ui_isConnected u) (ui_isLoading u) (ui_error u)
    (ui_repositories u) (ui_selectedRepo u) (ui_tags u) m
    (ui_imageInfos u) (ui_filter u) (ui_storageInfo u) (ui_registryUrl u).
Definition set_imageInfos (m : gmap string ImageInfo) (u : UiState) : UiState :=
  mkUiState (ui_isInitializing u) (ui_isConnected u) (ui_isLoading u) (ui_error u)
    (ui_repositories u) (ui_selectedRepo u) (ui_tags u) (ui_manifests u)
    m (ui_filter u) (ui_storageInfo u) (ui_registryUrl u).
Definition set_filter (f : string) (u : UiState) : UiState :=
  mkUiState (ui_isInitializing u) (ui_isConnected u) (ui_isLoading u) (ui_error u)
    (ui_repositories u) (ui_selectedRepo u) (ui_tags u) (ui_manifests u)
    (ui_imageInfos u) f (ui_storageInfo u) (ui_registryUrl u).
Definition set_storageInfo (i : option StorageInfo) (u : UiState) : UiState :=
  mkUiState (ui_isInitializing u) (ui_isConnected u) (ui_isLoading u) (ui_error u)
    (ui_repositories u) (ui_selectedRepo u) (ui_tags u) (ui_manifests u)
    (ui_imageInfos u) (ui_filter u) i (ui_registryUrl u).
Definition set_registryUrl (r : option string) (u : UiState) : UiState :=
  mkUiState (ui_isInitializing u) (ui_isConnected u) (ui_isLoading u) (ui_error u)
    (ui_repositories u) (ui_selectedRepo u) (ui_tags u) (ui_manifests u)
    (ui_imageInfos u) (ui_filter u) (ui_storageInfo u) r.


Section UseRegistry.
Context {World : Type} (env : Env World).

(** [state.field = ...]. *)
Definition assign (f : UiState -> UiState) : M World unit :=
  modify (fun s => set_state (f (state s)) s).

(** The calls into [imageCache], which read the clock and [localStorage]. *)
Definition cache_get {Val} (get : Z -> gmap string string -> option Val * gmap string string)
  : M World (option Val) :=
  fun s =>
    let '(v, ls) := get (Date_now env (world s)) (localStorage s) in
    Some (Resolved v, set_localStorage ls s).

Definition cache_save (save : Z -> gmap string string -> gmap string string)
  : M World unit :=
  fun s =>
    Some (Resolved tt, set_localStorage (save (Date_now env (world s)) (localStorage s)) s).

Definition loadRepositories (fuel : nat) : M World unit :=
  assign (set_isLoading true) ;;
  assign (set_error None) ;;
  tryFinally
    (tryCatch
       (do cached <- cache_get (ImageCache.getRepositories (parse_names env));
        match cached with
        | Some l => assign (set_repositories l)
        | None =>
            do l <- RegistryApi.getAllRepositories env fuel;
            assign (set_repositories l) ;;
            do l' <- gets (fun s => ui_repositories (state s));
            cache_save (ImageCache.saveRepositories (stringify_names env)
                          (quotaExceeded env) l')
        end)
       (fun err => assign (set_error (Some err))))
    (assign (set_isLoading false)).


Definition reconnect (fuel : nat) : M World bool :=
  tryFinally
    (RegistryApi.initCredentials env ;;
     do authenticated <- gets RegistryApi.isAuthenticated;
     if negb authenticated then ret false
     else
       assign (set_isLoading true) ;;
       assign (set_error None) ;;
       assign (set_storageInfo (Some (RegistryApi.getStorageInfo env))) ;;
       tryFinally
         (tryCatch
            (do result <- RegistryApi.testConnection env;
             if RegistryApi.success result
             then
               assign (set_isConnected true) ;;
               do creds <- gets RegistryApi.getCredentials;
               assign (set_registryUrl (orNull (creds ≫= registryUrl))) ;;
               loadRepositories fuel ;;
               ret true
             else ret false)
            (fun _ => ret false))
         (assign (set_isLoading false)))
    (assign (set_isInitializing false)).


Definition loadTags (repository : string) : M World (list string) :=
  do memo <- gets (fun s => ui_tags (state s) !! repository);
  match memo with
  | Some tags => ret tags
  | None =>
      tryCatch
        (do cached <- cache_get (ImageCache.getTags (parse_names env) repository);
         match cached with
         | Some tags =>
             assign (fun u => set_tags (<[repository := tags]> (ui_tags u)) u) ;;
             ret tags
         | None =>
             do result <- RegistryApi.getTags env repository;
             let tags := default [] (tl_tags result) in
             assign (fun u => set_tags (<[repository := tags]> (ui_tags u)) u) ;;
             cache_save (ImageCache.saveTags (stringify_names env)
                           (quotaExceeded env) repository tags) ;;
             ret tags
         end)
        (fun err =>                                   (* console.error *)
           assign (fun u => set_tags (<[repository := []]> (ui_tags u)) u) ;;
           ret [])
  end.

Definition loadImageInfo (repository tag : string) : M World (option ImageInfo) :=
  let key := repository +:+ ":" +:+ tag in
  do memo <- gets (fun s => ui_imageInfos (state s) !! key);
  match memo with
  | Some info => ret (Some info)
  | None =>
      tryCatch
        (do cached <- cache_get (ImageCache.getImageInfo (parse_info env) repository tag);
         match cached with
         | Some info =>
             assign (fun u => set_imageInfos (<[key := info]> (ui_imageInfos u)) u) ;;
             assign (fun u => set_manifests (<[key := manifest info]> (ui_manifests u)) u) ;;
             ret (Some info)
         | None =>
             do imageInfo <- RegistryApi.getImageInfo env repository tag;
             assign (fun u => set_imageInfos (<[key := imageInfo]> (ui_imageInfos u)) u) ;;
             assign (fun u => set_manifests (<[key := manifest imageInfo]> (ui_manifests u)) u) ;;
             cache_save (ImageCache.saveImageInfo (stringify_info env)
                           (quotaExceeded env) repository tag imageInfo) ;;
             ret (Some imageInfo)
         end)
        (fun err => ret None)                         (* console.error *)
  end.

End UseRegistry.
End UseRegistry.

(** ** Stand-ins for the environment

    A stateless registry given by its answers, and a browser without the
    Credential Management API whose storage never refuses a write. *)
Module Mock.

Record Registry : Type := mkRegistry {
  ping : Outcome unit;
  catalog : Z -> string -> Outcome Catalog;
  tags : string -> Outcome TagList;
  manifestAt : bool -> string -> string -> Outcome Manifest;
  blobAt : string -> string -> Outcome Config
}.

(** A registry that answers every request with 404. *)
Definition notFound : Registry :=
  {| ping := Rejected "Resource not found";
     catalog := fun _ _ => Rejected "Resource not found";
     tags := fun _ => Rejected "Resource not found";
     manifestAt := fun _ _ _ => Rejected "Resource not found";
     blobAt := fun _ _ => Rejected "Resource not found" |}.

(** A serialisation of cache entries holding names: the timestamp in
    decimal, a colon, the names separated by commas. *)
Definition encodeNames (e : ImageCache.CacheEntry (list string)) : string :=
  pretty (Z.to_N (ImageCache.timestamp e)) +:+ ":" +:+
  String.concat "," (ImageCache.value e).

Fixpoint splitOn (sep : Ascii.ascii) (s cur : string) : list string :=
  match s with
  | EmptyString => [String.rev cur]
  | String a s' =>
      if Ascii.eqb a sep then String.rev cur :: splitOn sep s' EmptyString
      else splitOn sep s' (String a cur)
  end.

Fixpoint readDecimal (s : string) (acc : N) : option N :=
  match s with
  | EmptyString => Some acc
  | String a s' =>
      let d := Ascii.N_of_ascii a in
      if ((48 <=? d) && (d <=? 57))%N
      then readDecimal s' (acc * 10 + (d - 48))%N
      else None
  end.

Definition decodeNames (s : string)
  : option (ImageCache.CacheEntry (list string)) :=
  match splitOn ":"%char s EmptyString with
  | [stamp; names] =>
      match readDecimal stamp 0%N with
      | Some t =>
          Some (ImageCache.mkEntry
                  (if String.eqb names "" then [] else splitOn ","%char names EmptyString)
                  (Z.of_N t))
      | None => None
      end
  | _ => None
  end.

Definition env (r : Registry) : Env unit :=
  {| supportsCredentialAPI := false;
     credentials_store := fun _ _ w => (Resolved tt, w);
     credentials_get := fun w => (Resolved None, w);
     preventSilentAccess := fun w => (Resolved tt, w);
     session_setItem_throws := fun _ => None;
     respond_ping := fun _ w => (ping r, w);
     respond_catalog := fun _ n last w => (catalog r n last, w);
     respond_tags := fun _ repository w => (tags r repository, w);
     respond_manifest := fun _ single repository reference w =>
                           (manifestAt r single repository reference, w);
     respond_blob := fun _ repository digest w => (blobAt r repository digest, w);
     Date_now := fun _ => 1700000000000;
     quotaExceeded := fun _ _ _ => false;
     stringify_names := encodeNames;
     parse_names := decodeNames;
     stringify_info := fun _ => "[object Object]";
     parse_info := fun _ => None |}.

Definition creds : Credentials :=
  mkCredentials (Some "https://registry.example.com") (Some "user") (Some "secret").

(** A session in which the client holds credentials. *)
Definition start : Sys unit := mkSys (Some creds) (Some creds) None ∅ initialUi [] tt.

(** A page load: the credentials of an earlier session are in
    [sessionStorage], nothing is in memory. *)
Definition pageLoad : Sys unit :=
  mkSys None None
    (Some (mkSessionData (Some "https://registry.example.com")
             (Some "user") (Some "secret") false))
    ∅ initialUi [] tt.

(** A single-platform manifest with layers of 10, 20 and 30 bytes and a
    config of 5 bytes. *)
Definition singleManifest : Manifest :=
  {| mediaType := Some "application/vnd.docker.distribution.manifest.v2+json";
     manifests := None;
     layers := Some [mkDescriptor (Some "sha256:l1") (Some 10);
                     mkDescriptor (Some "sha256:l2") (Some 20);
                     mkDescriptor (Some "sha256:l3") (Some 30)];
     config := Some (mkDescriptor (Some "sha256:cfg") (Some 5)) |}.

Definition linux (arch : string) : Platform :=
  mkPlatform (Some "linux") (Some arch) None None.

(** A manifest list with two platform entries of 100 and 150 bytes. *)
Definition listManifest : Manifest :=
  {| mediaType := Some "application/vnd.docker.distribution.manifest.list.v2+json";
     manifests := Some [mkEntry (Some (linux "amd64")) (Some "sha256:amd64") (Some 100);
                        mkEntry (Some (linux "arm64")) (Some "sha256:arm64") (Some 150)];
     layers := None;
     config := None |}.

(** A manifest list one of whose entries (an attestation) has no platform. *)
Definition listWithAttestation : Manifest :=
  {| mediaType := Some "application/vnd.oci.image.index.v1+json";
     manifests := Some [mkEntry (Some (linux "amd64")) (Some "sha256:amd64") (Some 100);
                        mkEntry None (Some "sha256:att") (Some 40);
                        mkEntry (Some (linux "arm64")) (Some "sha256:arm64") None];
     layers := None;
     config := None |}.

(** A registry that serves one manifest under every tag and nothing else. *)
Definition serving (m : Manifest) : Registry :=
  {| ping := Resolved tt;
     catalog := fun _ _ => Rejected "Resource not found";
     tags := fun _ => Rejected "Resource not found";
     manifestAt := fun single _ _ =>
                     if single then Rejected "Resource not found" else Resolved m;
     blobAt := fun _ _ => Rejected "Resource not found" |}.

(** A catalog of 237 repositories served by cursor. *)
Definition names : list string :=
  map (fun i => "repo-" +:+ pretty i) (seq 0 237).

Fixpoint after (last : string) (l : list string) : list string :=
  match l with
  | [] => []
  | x :: l' => if String.eqb x last then l' else after last l'
  end.

Definition cursorCatalog (n : Z) (last : string) : Outcome Catalog :=
  let rest := if String.eqb last "" then names else after last names in
  Resolved (mkCatalog (Some (firstn (Z.to_nat n) rest))).

Definition withCatalog : Registry :=
  {| ping := Resolved tt;
     catalog := cursorCatalog;
     tags := fun _ => Rejected "Resource not found";
     manifestAt := fun _ _ _ => Rejected "Resource not found";
     blobAt := fun _ _ => Rejected "Resource not found" |}.

End Mock.

(** ** The vocabulary of the properties *)
Module Spec.

(** The sum of a list of numbers. *)
Definition Zsum (l : list Z) : Z := foldr Z.add 0 l.

(** The traffic of a pagination over full pages, from the cursor [last]:
    each round is one throttled call of the catalog at the cursor that the
    page before left. *)
Fixpoint pagination (full : list (list string)) (last : string) : list Traffic :=
  Queued :: Fetched (EpCatalog 100 last) ::
  match full with
  | [] => []
  | page :: full' => pagination full' (List.last page "")
  end.

Definition isQueued (t : Traffic) : bool :=
  match t with
  | Queued => true
  | Fetched _ => false
  end.

(** The number of calls put through the throttler. *)
Definition throttledCalls (t : list Traffic) : nat :=
  length (List.filter isQueued t).

Section Spec.
Context {World : Type} (env : Env World).

(** An asynchronous function that always settles. *)
Definition settles {A} (c : M World A) : Prop :=
  forall s, exists o s', c s = Some (o, s').



(** The registry serves the pages [full], then the page [final], to a
    client that follows the cursor from [last]. *)
Fixpoint catalogServes (c : Credentials) (full : list (list string))
  (final : Catalog) (last : string) (w w' : World) : Prop :=
  match full with
  | [] => respond_catalog env c 100 last w = (Resolved final, w')
  | page :: full' =>
      exists w1,
        respond_catalog env c 100 last w = (Resolved (mkCatalog (Some page)), w1) /\
        catalogServes c full' final (List.last page "") w1 w'
  end.

End Spec.
End Spec.

(** ** The rest of the sources

    The functions of the same files that the properties above do not need,
    and the consumers of the image info in [ImageDetails.vue]. What belongs
    to the browser or to the build ([btoa], [JSON.parse], [toLowerCase],
    [import.meta.env.DEV]) is a parameter. *)

Module ImageCacheRest.
Import ImageCache.

(** [Object.keys(localStorage)], in an order the browser chooses. *)
Definition keys (ls : gmap string string) : list string := (map_to_list ls).*1.

(** The [forEach] of [clearAll] over a list of keys. *)
Definition removePrefixed (ks : list string) (ls : gmap string string)
  : gmap string string :=
  fold_left
    (fun acc key => if String.prefix CACHE_PREFIX key then delete key acc else acc)
    ks ls.

Definition clearAll (ls : gmap string string) : gmap string string :=
  removePrefixed (keys ls) ls.

(** The [forEach] of [getCacheSize] over a list of keys;
    [localStorage.getItem(key).length] is the length of the stored string. *)
Definition sizeOver (ks : list string) (ls : gmap string string) (size : Z) : Z :=
  fold_left
    (fun size key =>
       if String.prefix CACHE_PREFIX key
       then size + Z.of_nat (String.length (default "" (ls !! key)))
       else size)
    ks size.

Definition getCacheSize (ls : gmap string string) : Z :=
  sizeOver (keys ls) ls 0.

End ImageCacheRest.

Module RegistryApiRest.

(** [String.prototype.includes]. *)
Fixpoint contains (hay needle : string) : bool :=
  String.prefix needle hay ||
  match hay with
  | EmptyString => false
  | String _ hay' => contains hay' needle
  end.

(** [replace(/\/$/, '')]: one slash at the very end is removed. *)
Fixpoint dropTrailingSlash (s : string) : string :=
  match s with
  | EmptyString => EmptyString
  | String a EmptyString => if Ascii.eqb a "/" then EmptyString else s
  | String a s' => String a (dropTrailingSlash s')
  end.

(** What [request] reads of the [Response] that [fetch] resolved with. *)
Record Response : Type := mkResponse {
  ok : bool;
  status : Z;
  statusText : string;
  contentType : option string;        (* [headers.get('content-type')] *)
  body : string
}.

(** What [request] returns: the parsed body, or the raw text. *)
Inductive Payload (Json : Type) : Type :=
| Parsed (j : Json)
| Raw (text : string).
Arguments Parsed {Json} j.
Arguments Raw {Json} text.

Section Rest.
Context {World : Type} {Json : Type} (env : Env World).
Variable btoa : string -> string.
Variable isDev : bool.
Variable JSON_parse : string -> Outcome Json.

(** [getAuthHeader]. The strings of the embedding are byte strings, on which
    [btoa] does not throw. *)
Definition getAuthHeader (s : Sys World) : option string :=
  match RegistryApi.getCredentials s with
  | Some creds =>
      if truthyS (username creds) && truthyS (password creds)
      then
        let encoded :=
          btoa (interpolate (username creds) +:+ ":" +:+ interpolate (password creds)) in
        Some ("Basic " +:+ encoded)
      else None
  | None => None
  end.

(** [getApiUrl]; [Rejected] is the [Error] it throws. *)
Definition getApiUrl (endpoint : string) (s : Sys World) : Outcome string :=
  match RegistryApi.getCredentials s with
  | Some creds =>
      if truthyS (registryUrl creds)
      then
        if isDev then Resolved ("/registry-api" +:+ endpoint)
        else
          let baseUrl := dropTrailingSlash (interpolate (registryUrl creds)) in
          Resolved (baseUrl +:+ "/v2" +:+ endpoint)
      else Rejected "Registry URL not configured"
  | None => Rejected "Registry URL not configured"
  end.

(** The part of [request] after [await fetch(...)]: the mapping of the
    status to an error and the reading of the body. [response.json()]
    rejects as [JSON.parse] throws. *)
Definition readResponse (response : Response) : Outcome (Payload Json) :=
  if negb (ok response)
  then
    if (status response =? 401)%Z
    then Rejected "Authentication failed. Check your credentials."
    else if (status response =? 404)%Z
    then Rejected "Resource not found"
    else Rejected ("Registry API error: " +:+ pretty (status response) +:+ " "
                   +:+ statusText response)
  else
    let contentType := default "" (orNull (contentType response)) in
    let isJsonType :=
      contains contentType "application/json" ||
      contains contentType "application/vnd.docker" ||
      contains contentType "application/vnd.oci" in
    if isJsonType
    then match JSON_parse (body response) with
         | Resolved j => Resolved (Parsed j)
         | Rejected e => Rejected e
         end
    else match JSON_parse (body response) with
         | Resolved j => Resolved (Parsed j)
         | Rejected _ => Resolved (Raw (body response))
         end.

(** [getBlobHead] and [deleteManifest] use the URLs of [getBlob] and of
    [getManifest] with the methods HEAD and DELETE; the answers to those are
    the environment's. *)
Definition getBlobHead {A}
  (respond_head : Credentials -> string -> string -> World -> Outcome A * World)
  (repository digest : string) : M World A :=
  RegistryApi.enqueueRequest
    (RegistryApi.request (EpBlob repository digest)
       (fun c => respond_head c repository digest)).

Definition deleteManifest {A}
  (respond_delete : Credentials -> string -> string -> World -> Outcome A * World)
  (repository digest : string) : M World A :=
  RegistryApi.request (EpManifest repository digest)
    (fun c => respond_delete c repository digest).

End Rest.
End RegistryApiRest.

Module CredentialStoreRest.


End CredentialStoreRest.

Module UseRegistryRest.
Import UseRegistry.

Section Rest.
Context {World : Type} (env : Env World).
Variable toLowerCase : string -> string.

(** The computed [filteredRepositories]. *)
Definition filteredRepositories (s : Sys World) : list string :=
  if String.eqb (ui_filter (state s)) "" then ui_repositories (state s)
  else
    let filterLower := toLowerCase (ui_filter (state s)) in
    List.filter (fun repo => RegistryApiRest.contains (toLowerCase repo) filterLower)
      (ui_repositories (state s)).


Definition setFilter (filter : string) : M World unit :=
  assign (set_filter filter).

Definition clearCache : M World unit :=
  modify (fun s => set_localStorage (ImageCacheRest.clearAll (localStorage s)) s).

Definition clearImageCache (repository tag : string) : M World unit :=
  modify (fun s => set_localStorage
                     (ImageCache.clearImageInfo repository tag (localStorage s)) s) ;;
  let key := repository +:+ ":" +:+ tag in
  assign (fun u => set_imageInfos (delete key (ui_imageInfos u)) u) ;;
  assign (fun u => set_manifests (delete key (ui_manifests u)) u).

End Rest.
End UseRegistryRest.

(** The consumers of the platforms of an image info in [ImageDetails.vue]. *)
Module ImageDetails.

(** [formatPlatform]; [None] is [null]. *)
Definition formatPlatform (platform : option PlatformDescriptor) : option string :=
  match platform with
  | None => None
  | Some p =>
      if negb (truthyS (pd_os p)) && negb (truthyS (pd_architecture p)) then None
      else
        let result :=
          interpolate (orS (pd_os p) (Some "?")) +:+ "/" +:+
          interpolate (orS (pd_architecture p) (Some "?")) in
        if truthyS (pd_variant p)
        then Some (result +:+ "/" +:+ interpolate (pd_variant p))
        else Some result
  end.

(** [getValidPlatforms]; an absent list is [null] or [undefined]. *)
Definition getValidPlatforms (platforms : option (list PlatformDescriptor))
  : list PlatformDescriptor :=
  match platforms with
  | None => []
  | Some ps =>
      List.filter (fun p => truthyS (pd_os p) || truthyS (pd_architecture p)) ps
  end.

End ImageDetails.

(** ** More vocabulary and stand-ins *)
Module SpecRest.
Import Spec.

Section SpecRest.
Context {World : Type} (env : Env World).

(** An asynchronous function that never rejects. *)
Definition neverRejects {A} (c : M World A) : Prop :=
  forall s o s', c s = Some (o, s') -> exists a, o = Resolved a.

(** An asynchronous function that puts at most [n] calls through the
    throttler and takes none back. *)
Definition atMost {A} (n : nat) (c : M World A) : Prop :=
  forall s o s', c s = Some (o, s') ->
    (throttledCalls (traffic s) <= throttledCalls (traffic s')
     /\ throttledCalls (traffic s') <= throttledCalls (traffic s) + n)%nat.

(** A client without a registry URL: no credentials, or credentials whose
    [registryUrl] is absent or empty. *)
Definition unconfigured (s : Sys World) : Prop :=
  forall c, RegistryApi.getCredentials s = Some c -> truthyS (registryUrl c) = false.

(** The registry serves the pages [full] to a client that follows the
    cursor from [last], and fails the request after them with [e]. *)
Fixpoint catalogFails (c : Credentials) (full : list (list string))
  (e : Error) (last : string) (w w' : World) : Prop :=
  match full with
  | [] => respond_catalog env c 100 last w = (Rejected e, w')
  | page :: full' =>
      exists w1,
        respond_catalog env c 100 last w = (Resolved (mkCatalog (Some page)), w1) /\
        catalogFails c full' e (List.last page "") w1 w'
  end.

End SpecRest.
End SpecRest.

Module MockRest.

(** A registry whose catalog never ends: every page is full. *)
Definition endless : Mock.Registry :=
  {| Mock.ping := Resolved tt;
     Mock.catalog := fun _ _ => Resolved (mkCatalog (Some (firstn 100 Mock.names)));
     Mock.tags := fun _ => Rejected "Resource not found";
     Mock.manifestAt := fun _ _ _ => Rejected "Resource not found";
     Mock.blobAt := fun _ _ => Rejected "Resource not found" |}.

(** A registry that serves the first page of the catalog and fails the
    second. *)
Definition failingSecondPage : Mock.Registry :=
  {| Mock.ping := Resolved tt;
     Mock.catalog := fun n last =>
                       if String.eqb last "" then Mock.cursorCatalog n last
                       else Rejected "Registry API error: 502 Bad Gateway";
     Mock.tags := fun _ => Rejected "Resource not found";
     Mock.manifestAt := fun _ _ _ => Rejected "Resource not found";
     Mock.blobAt := fun _ _ => Rejected "Resource not found" |}.

(** A registry with two tags in every repository. *)
Definition tagged : Mock.Registry :=
  {| Mock.ping := Resolved tt;
     Mock.catalog := Mock.cursorCatalog;
     Mock.tags := fun _ => Resolved (mkTagList (Some ["latest"; "1.0"]));
     Mock.manifestAt := fun single _ _ =>
                          if single then Rejected "Resource not found"
                          else Resolved Mock.singleManifest;
     Mock.blobAt := fun _ _ => Rejected "Resource not found" |}.

(** [toLowerCase] on the letters A to Z. *)
Definition lowerAscii (a : ascii) : ascii :=
  let n := nat_of_ascii a in
  if ((65 <=? n) && (n <=? 90))%nat then ascii_of_nat (n + 32) else a.

Fixpoint toLowerCase (s : string) : string :=
  match s with
  | EmptyString => EmptyString
  | String a s' => String (lowerAscii a) (toLowerCase s')
  end.

(** A [JSON.parse] that knows the empty object only. *)
Definition parseEmptyObject (text : string) : Outcome unit :=
  if String.eqb text "{}" then Resolved tt
  else Rejected "Unexpected token in JSON".

(** A session with credentials whose password is empty. *)
Definition anonymous : Sys unit :=
  mkSys (Some (mkCredentials (Some "https://registry.example.com/") (Some "user") (Some "")))
        None None ∅ initialUi [] tt.

End MockRest.

(** * Properties *)

(** ** Manifest classification *)

Lemma includes_listMediaTypes (x : option string) :
  includes listMediaTypes x = true <->
  x = Some "application/vnd.docker.distribution.manifest.list.v2+json" \/
  x = Some "application/vnd.oci.image.index.v1+json".
Proof.
  destruct x as [s|]; simpl.
  - rewrite !orb_true_iff, !String.eqb_eq. split.
    + intros [->|[->|H]]; [left|right|discriminate]; reflexivity.
    + intros [H|H]; inversion H; auto.
  - split; [discriminate | intros [H|H]; discriminate].
Qed.

(** C4, as the claim words it, fails on an image index that also carries a
    [layers] array: its media type decides, and the answer is [true]. *)
Lemma isManifestList_index_with_layers :
  let m := {| mediaType := Some "application/vnd.oci.image.index.v1+json";
              manifests := None;
              layers := Some [mkDescriptor (Some "sha256:l1") (Some 10)];
              config := None |} in
  is_Some (layers m) /\ isManifestList m = Some true.
Proof. split; [eexists; reflexivity | reflexivity]. Qed.

(** C4 (amended): [isManifestList] answers [true] for each of the two
    list/index media types and for a manifest with a [manifests] array and no
    [layers]; for a manifest with [layers] whose media type is neither of the
    two it answers a falsy value: [false] when it has a [manifests] array,
    [undefined] when it has none. *)
Theorem isManifestList_classifies (m : Manifest) :
  (mediaType m = Some "application/vnd.docker.distribution.manifest.list.v2+json" \/
   mediaType m = Some "application/vnd.oci.image.index.v1+json" ->
   isManifestList m = Some true) /\
  (is_Some (manifests m) -> layers m = None -> isManifestList m = Some true) /\
  (is_Some (layers m) ->
   mediaType m <> Some "application/vnd.docker.distribution.manifest.list.v2+json" ->
   mediaType m <> Some "application/vnd.oci.image.index.v1+json" ->
   truthyB (isManifestList m) = false /\
   isManifestList m = match manifests m with Some _ => Some false | None => None end).
Proof.
  unfold isManifestList. repeat split.
  - intros H. apply includes_listMediaTypes in H. now rewrite H.
  - intros [ms Hms] Hl. rewrite Hms, Hl.
    destruct (includes _ _); [reflexivity|].
    rewrite bool_decide_eq_false_2; [reflexivity|]. intros [? ?]; discriminate.
  - destruct (includes listMediaTypes (mediaType m)) eqn:E.
    + apply includes_listMediaTypes in E. tauto.
    + destruct (manifests m); [|reflexivity].
      rewrite bool_decide_eq_true_2 by assumption. reflexivity.
  - destruct (includes listMediaTypes (mediaType m)) eqn:E.
    + apply includes_listMediaTypes in E. tauto.
    + destruct (manifests m); [|reflexivity].
      rewrite bool_decide_eq_true_2 by assumption. reflexivity.
Qed.

Lemma isManifestList_classifies_witness :
  isManifestList (mkManifest (Some "application/vnd.oci.image.index.v1+json")
                    None None None) = Some true /\
  isManifestList (mkManifest None (Some []) None None) = Some true /\
  truthyB (isManifestList
             (mkManifest (Some "application/vnd.oci.image.manifest.v1+json")
                None (Some []) None)) = false.
Proof.
  split; [|split].
  - apply (proj1 (isManifestList_classifies _)). right. reflexivity.
  - apply (proj1 (proj2 (isManifestList_classifies _))).
    + eexists. reflexivity.
    + reflexivity.
  - apply (proj2 (proj2 (isManifestList_classifies _))).
    + eexists. reflexivity.
    + discriminate.
    + discriminate.
Defined.

(** ** The request throttler *)
Module ThrottlerFacts.
Import Throttler.

Section Facts.
Context {Task Value : Type}.
Implicit Types (st : @State Task) (i : @Input Task Value)
  (tr : list (@Event Task Value)).

Lemma called_app tr1 tr2 : called (tr1 ++ tr2) = called tr1 ++ called tr2.
Proof.
  induction tr1 as [|[t|t v|t e|ms] tr1 IH]; simpl; [reflexivity| |auto..].
  now rewrite IH.
Qed.

Lemma delays_app tr1 tr2 : delays (tr1 ++ tr2) = delays tr1 ++ delays tr2.
Proof.
  induction tr1 as [|[t|t v|t e|ms] tr1 IH]; simpl; [reflexivity|auto..| ].
  now rewrite IH.
Qed.

Lemma inFlight_app tr1 tr2 b :
  inFlight b (tr1 ++ tr2) = inFlight b tr1 ≫= fun b' => inFlight b' tr2.
Proof.
  revert b. induction tr1 as [|[t|t v|t e|ms] tr1 IH]; intros b; simpl;
    [reflexivity|destruct b; auto..|auto].
Qed.

Lemma enqueued_app (ins1 ins2 : list (@Input Task Value)) :
  enqueued (ins1 ++ ins2) = enqueued ins1 ++ enqueued ins2.
Proof.
  induction ins1 as [|[t|o|] ins1 IH]; simpl; [reflexivity| |auto..].
  now rewrite IH.
Qed.

Lemma run_app (ins1 ins2 : list (@Input Task Value)) st :
  run (ins1 ++ ins2) st =
  let '(st1, tr1) := run ins1 st in
  let '(st2, tr2) := run ins2 st1 in
  (st2, tr1 ++ tr2).
Proof.
  revert st. induction ins1 as [|i ins1 IH]; intros st; simpl.
  - destruct (run ins2 st); reflexivity.
  - destruct (step i st) as [st1 tr1]. rewrite IH.
    destruct (run ins1 st1) as [st2 tr2]. destruct (run ins2 st2) as [st3 tr3].
    now rewrite app_assoc.
Qed.

(** One step keeps the state consistent, takes tasks from the head of the
    queue and adds them at its tail, and starts a request only when none is
    in flight. *)
Lemma step_invariant i st :
  consistent st ->
  consistent (fst (step i st)) /\
  called (snd (step i st)) ++ requestQueue (fst (step i st))
    = requestQueue st ++ enqueued [i] /\
  inFlight (busy st) (snd (step i st)) = Some (busy (fst (step i st))).
Proof.
  destruct st as [q p d]. unfold consistent, busy. simpl.
  destruct i as [t|o|]; simpl.
  - unfold enqueueRequest, processQueue; simpl.
    destruct d as [|t'|]; simpl.
    + intros [-> ->]. simpl. auto.
    + intros ->. simpl. auto.
    + intros [-> Hq]. simpl. split; [|auto]. split; [reflexivity|].
      destruct q; [congruence | discriminate].
  - unfold afterRequest; simpl. destruct d as [|t'|]; simpl.
    + intros [-> ->]. auto.
    + intros ->. destruct q as [|t q]; simpl.
      * destruct o; simpl; auto.
      * destruct o; simpl; rewrite app_nil_r; repeat split; discriminate.
    + intros [-> Hq]. rewrite app_nil_r. auto.
  - unfold afterDelay; simpl. destruct d as [|t'|]; simpl.
    + intros [-> ->]. auto.
    + intros ->. rewrite app_nil_r. auto.
    + intros [-> Hq]. destruct q as [|t q]; [congruence|]. simpl.
      rewrite app_nil_r. auto.
Qed.

Lemma run_invariant (ins : list (@Input Task Value)) st :
  consistent st ->
  consistent (fst (run ins st)) /\
  called (snd (run ins st)) ++ requestQueue (fst (run ins st))
    = requestQueue st ++ enqueued ins /\
  inFlight (busy st) (snd (run ins st)) = Some (busy (fst (run ins st))).
Proof.
  revert st. induction ins as [|i ins IH]; intros st Hst; simpl.
  - rewrite app_nil_r. auto.
  - destruct (step_invariant i st Hst) as (H1 & H2 & H3).
    destruct (step i st) as [st1 tr1]. simpl in *.
    destruct (IH st1 H1) as (K1 & K2 & K3).
    destruct (run ins st1) as [st2 tr2]. simpl in *.
    split; [assumption|]. split.
    + rewrite called_app, <- app_assoc, K2, app_assoc, H2, <- app_assoc.
      f_equal. destruct i; reflexivity.
    + rewrite inFlight_app, H3. simpl. assumption.
Qed.

(** A delay is waited exactly on the completion of a request that leaves
    tasks in the queue, and it is [REQUEST_DELAY]. *)
Lemma step_delays i st :
  delays (snd (step i st)) =
  match i, driver st with
  | Settled _, AwaitingRequest _ =>
      match requestQueue st with
      | [] => []
      | _ :: _ => [REQUEST_DELAY]
      end
  | _, _ => []
  end.
Proof.
  destruct st as [q p d], i as [t|o|]; simpl.
  - unfold enqueueRequest, processQueue; simpl.
    destruct (p || _); [reflexivity|]. unfold whileLoop; simpl.
    destruct (q ++ [t]); reflexivity.
  - unfold afterRequest; simpl. destruct d as [|t'|]; try reflexivity.
    destruct q; destruct o; reflexivity.
  - unfold afterDelay; simpl. destruct d as [|t'|]; try reflexivity.
    unfold whileLoop; simpl. destruct q; reflexivity.
Qed.

(** The outcome of a request reaches the promise of its own task and
    nothing else: the state in which the loop goes on does not depend on it. *)
Lemma afterRequest_isolated (o o' : Outcome Value) st :
  fst (afterRequest o st) = fst (afterRequest o' st) /\
  forall t, driver st = AwaitingRequest t ->
    exists rest, snd (afterRequest o st) = settle t o :: rest /\
                 snd (afterRequest o' st) = settle t o' :: rest /\
                 called rest = [].
Proof.
  destruct st as [q p d]. unfold afterRequest; simpl. split.
  - destruct d; try reflexivity. destruct q; reflexivity.
  - intros t ->. destruct q; simpl; eexists; repeat split.
Qed.

Lemma run_enqueue_processing (jobs : list (Task * Outcome Value)) q d :
  run (map (fun j => @Enqueue Task Value (fst j)) jobs) (mkState q true d)
  = (mkState (q ++ map fst jobs) true d, []).
Proof.
  revert q. induction jobs as [|j jobs IH]; intros q; simpl.
  - now rewrite app_nil_r.
  - unfold enqueueRequest, processQueue; simpl. rewrite IH.
    now rewrite <- app_assoc.
Qed.

Lemma run_completions (jobs : list (Task * Outcome Value)) t o :
  run (completions (o :: map snd jobs))
      (mkState (map fst jobs) true (AwaitingRequest t))
  = (idle, tl (spec_schedule ((t, o) :: jobs))).
Proof.
  revert t o. induction jobs as [|[t' o'] jobs IH]; intros t o.
  - reflexivity.
  - change (completions (o :: map snd ((t', o') :: jobs)))
      with (@Settled Task Value o :: TimerFired :: completions (o' :: map snd jobs)).
    change (spec_schedule ((t, o) :: (t', o') :: jobs))
      with (Call t :: settle t o :: Sleep 100 :: spec_schedule ((t', o') :: jobs)).
    cbn [run step map fst snd]. unfold afterRequest, afterDelay.
    cbn -[completions spec_schedule]. rewrite IH.
    destruct jobs as [|[t'' o''] jobs]; reflexivity.
Qed.

(** A batch is served on the specified schedule, whatever the outcomes. *)
Lemma run_batch (jobs : list (Task * Outcome Value)) :
  run (batch jobs) idle = (idle, spec_schedule jobs).
Proof.
  destruct jobs as [|[t o] jobs]; [reflexivity|].
  unfold batch. rewrite run_app.
  change (run (map (fun j => Enqueue (fst j)) ((t, o) :: jobs)) idle)
    with (let '(st2, evs2) :=
            run (map (fun j => @Enqueue Task Value (fst j)) jobs)
                (mkState [] true (AwaitingRequest t)) in
          (st2, [Call t] ++ evs2)).
  rewrite run_enqueue_processing. cbn [app map snd].
  rewrite (run_completions jobs t o).
  destruct jobs as [|[t' o'] jobs]; reflexivity.
Qed.

Lemma delays_spec_schedule (jobs : list (Task * Outcome Value)) :
  delays (spec_schedule jobs) = repeat 100 (length jobs - 1).
Proof.
  induction jobs as [|[t o] jobs IH]; [reflexivity|].
  destruct jobs as [|[t' o'] jobs].
  - destruct o; reflexivity.
  - change (spec_schedule ((t, o) :: (t', o') :: jobs))
      with (Call t :: settle t o :: Sleep 100 :: spec_schedule ((t', o') :: jobs)).
    destruct o; cbn [delays]; rewrite IH; simpl; now rewrite Nat.sub_0_r.
Qed.

Lemma called_spec_schedule (jobs : list (Task * Outcome Value)) :
  called (spec_schedule jobs) = map fst jobs.
Proof.
  induction jobs as [|[t o] jobs IH]; [reflexivity|].
  destruct jobs as [|[t' o'] jobs].
  - destruct o; reflexivity.
  - change (spec_schedule ((t, o) :: (t', o') :: jobs))
      with (Call t :: settle t o :: Sleep 100 :: spec_schedule ((t', o') :: jobs)).
    destruct o; cbn [called]; rewrite IH; reflexivity.
Qed.

(** A control flow that submits one request to the idle throttler and awaits
    it: the request is invoked at once, its outcome settles the caller's
    promise, no delay is waited and the throttler is idle again. *)
Lemma idle_roundtrip (t : Task) (o : Outcome Value) :
  run [Enqueue t; Settled o] idle = (idle, [Call t; settle t o]).
Proof. reflexivity. Qed.

(** C5: over every history of submissions, completions and timeouts the
    requests are invoked in submission order and one at a time; a delay of
    100 ms is waited exactly when a completed request leaves tasks in the
    queue, so none follows the last task; the outcome of a request settles
    the promise of its own task only and leaves the loop as it would be
    after any other outcome; and a batch of tasks is served to its end on the
    schedule call, settle, delay, call, ..., settle, whatever the outcomes. *)
Theorem throttler_fifo_paced_isolated
  (ins : list (@Input Task Value)) i st (o o' : Outcome Value)
  (jobs : list (Task * Outcome Value)) :
  (called (snd (run ins idle)) ++ requestQueue (fst (run ins idle)) = enqueued ins /\
   inFlight false (snd (run ins idle)) = Some (busy (fst (run ins idle)))) /\
  delays (snd (step i st)) =
    match i, driver st with
    | Settled _, AwaitingRequest _ =>
        match requestQueue st with
        | [] => []
        | _ :: _ => [100]
        end
    | _, _ => []
    end /\
  (fst (step (Settled o) st) = fst (step (Settled o') st) /\
   forall t, driver st = AwaitingRequest t ->
     exists rest, snd (step (Settled o) st) = settle t o :: rest /\
                  snd (step (Settled o') st) = settle t o' :: rest /\
                  called rest = []) /\
  (run (batch jobs) idle = (idle, spec_schedule jobs) /\
   called (spec_schedule jobs) = map fst jobs /\
   delays (spec_schedule jobs) = repeat 100 (length jobs - 1)).
Proof.
  split; [|split; [|split]].
  - assert (Hidle : consistent (@idle Task)) by (split; reflexivity).
    destruct (run_invariant ins idle Hidle) as (_ & H2 & H3). auto.
  - apply step_delays.
  - apply afterRequest_isolated.
  - auto using run_batch, called_spec_schedule, delays_spec_schedule.
Qed.

End Facts.

(** Two tasks, the first of which fails while the second waits. *)
Lemma throttler_fifo_paced_isolated_witness :
  let ins := [Enqueue 1%nat; Enqueue 2%nat;
              Settled (@Rejected string "Authentication failed. Check your credentials.")] in
  called (snd (run ins idle)) ++ requestQueue (fst (run ins idle)) = [1%nat; 2%nat] /\
  delays (snd (run ins idle)) = [100] /\
  exists rest,
    snd (step (Settled (@Resolved string "ok")) (mkState [2%nat] true (AwaitingRequest 1%nat)))
    = Resolve 1%nat "ok" :: rest /\
    called rest = [].
Proof.
  pose proof (throttler_fifo_paced_isolated
                [Enqueue 1%nat; Enqueue 2%nat;
                 Settled (@Rejected string "Authentication failed. Check your credentials.")]
                (Settled (@Rejected string "Authentication failed. Check your credentials."))
                (mkState [2%nat] true (AwaitingRequest 1%nat))
                (Resolved "ok")
                (Rejected "Authentication failed. Check your credentials.")
                [(1%nat, Rejected "Authentication failed. Check your credentials.")])
    as ((Hfifo & _) & _ & (_ & Hiso) & _).
  cbv zeta. split; [exact Hfifo|]. split; [reflexivity|].
  destruct (Hiso 1%nat) as (rest & H1 & _ & H3); [reflexivity|].
  exists rest. split; [exact H1 | exact H3].
Defined.

(** Five tasks, the third of which fails: all five are called in order, each
    promise gets its own outcome, and four delays are waited. *)
Example five_tasks :
  let jobs := [(1%nat, Resolved "a"); (2%nat, Resolved "b");
               (3%nat, Rejected "Resource not found");
               (4%nat, Resolved "d"); (5%nat, Resolved "e")] in
  run (batch jobs) idle
  = (idle,
     [Call 1%nat; Resolve 1%nat "a"; Sleep 100;
      Call 2%nat; Resolve 2%nat "b"; Sleep 100;
      Call 3%nat; Reject 3%nat "Resource not found"; Sleep 100;
      Call 4%nat; Resolve 4%nat "d"; Sleep 100;
      Call 5%nat; Resolve 5%nat "e"]).
Proof. reflexivity. Qed.

End ThrottlerFacts.

(** ** The registry client *)
Module RegistryApiFacts.
Import RegistryApi Spec.

Lemma reduce_sum {A} (f : A -> Z) (l : list A) (a : Z) :
  fold_left (fun sum x => sum + f x) l a = a + Zsum (map f l).
Proof.
  revert a. induction l as [|x l IH]; intros a; simpl.
  - lia.
  - rewrite IH. unfold Zsum. simpl. lia.
Qed.

Lemma Zsum_app (l1 l2 : list Z) : Zsum (l1 ++ l2) = Zsum l1 + Zsum l2.
Proof. unfold Zsum. induction l1; simpl; lia. Qed.

(** A sum splits along any filter. *)
Lemma Zsum_filter {A} (f : A -> Z) (p : A -> bool) (l : list A) :
  Zsum (map f l)
  = Zsum (map f (List.filter p l))
    + Zsum (map f (List.filter (fun x => negb (p x)) l)).
Proof.
  unfold Zsum. induction l as [|x l IH]; simpl; [reflexivity|].
  destruct (p x); simpl; lia.
Qed.

Lemma throttledCalls_app (t1 t2 : list Traffic) :
  throttledCalls (t1 ++ t2) = (throttledCalls t1 + throttledCalls t2)%nat.
Proof. unfold throttledCalls. now rewrite List.filter_app, length_app. Qed.

Lemma throttled_log (t : list Traffic) :
  throttledCalls (t ++ [Queued]) = S (throttledCalls t).
Proof. rewrite throttledCalls_app. unfold throttledCalls. simpl. lia. Qed.

Lemma throttledCalls_pagination full last :
  throttledCalls (pagination full last) = S (length full).
Proof.
  revert last. induction full as [|page full IH]; intros last; [reflexivity|].
  change (throttledCalls (pagination (page :: full) last))
    with (S (throttledCalls (pagination full (List.last page "")))).
  now rewrite IH.
Qed.

(** Every descriptor of the platform list comes from an entry that carries a
    [platform]. *)
Lemma describe_filtered (ms : list ManifestEntry) :
  Forall2 (fun d e => m_platform e <> None /\ d = describe e)
    (map describe (List.filter hasPlatform ms)) (List.filter hasPlatform ms).
Proof.
  induction ms as [|e ms IH]; simpl; [constructor|].
  destruct (hasPlatform e) eqn:E; simpl; [|exact IH].
  constructor; [|exact IH]. split; [|reflexivity].
  unfold hasPlatform in E. destruct (m_platform e); congruence.
Qed.

Section Facts.
Context {World : Type} (env : Env World).
Implicit Types (s : Sys World).

Lemma settles_ret {A} (a : A) : settles (ret a : M World A).
Proof. intros s. unfold ret. eauto. Qed.

Lemma settles_throw {A} e : settles (@throw World A e).
Proof. intros s. unfold throw. eauto. Qed.

Lemma settles_modify f : settles (@modify World f).
Proof. intros s. unfold modify. eauto. Qed.

Lemma settles_gets {A} (f : Sys World -> A) : settles (gets f).
Proof. intros s. unfold gets. eauto. Qed.

Lemma settles_ask {A} (q : World -> Outcome A * World) : settles (ask q).
Proof. intros s. unfold ask. destruct (q (world s)). eauto. Qed.

Lemma settles_bind {A B} (c : M World A) (k : A -> M World B) :
  settles c -> (forall a, settles (k a)) -> settles (bind c k).
Proof.
  intros Hc Hk s. unfold bind. destruct (Hc s) as ([a|e] & s' & ->).
  - apply Hk.
  - eauto.
Qed.

Lemma settles_tryCatch {A} (c : M World A) (h : Error -> M World A) :
  settles c -> (forall e, settles (h e)) -> settles (tryCatch c h).
Proof.
  intros Hc Hh s. unfold tryCatch. destruct (Hc s) as ([a|e] & s' & ->).
  - eauto.
  - apply Hh.
Qed.

(** A guarded block whose handler returns always resolves. *)
Lemma tryCatch_resolves {A} (c : M World A) (a0 : A) s :
  settles c ->
  exists a s', tryCatch c (fun _ => ret a0) s = Some (Resolved a, s').
Proof.
  intros Hc. unfold tryCatch. destruct (Hc s) as ([a|e] & s' & ->).
  - eauto.
  - unfold ret. eauto.
Qed.

Lemma settles_request {A} ep (respond : Credentials -> World -> Outcome A * World) :
  settles (request ep respond).
Proof.
  unfold request. apply settles_bind; [apply settles_gets|].
  intros [c|]; [|apply settles_throw].
  destruct (truthyS (registryUrl c)); [|apply settles_throw].
  apply settles_bind; [apply settles_modify|]. intros _. apply settles_ask.
Qed.

Lemma settles_enqueueRequest {A} (c : M World A) :
  settles c -> settles (enqueueRequest c).
Proof.
  intros Hc. unfold enqueueRequest.
  apply settles_bind; [apply settles_modify | auto].
Qed.

Lemma settles_getBlob repository digest : settles (getBlob env repository digest).
Proof. apply settles_enqueueRequest, settles_request. Qed.

Lemma settles_fetchFirstPlatform repository first :
  settles (fetchFirstPlatform env repository first).
Proof.
  unfold fetchFirstPlatform.
  apply settles_bind; [apply settles_enqueueRequest, settles_request|].
  intros pm. apply settles_bind.
  - destruct (truthyS _); [|apply settles_ret].
    apply settles_bind; [apply settles_getBlob | intros; apply settles_ret].
  - intros; apply settles_ret.
Qed.

(** The guarded fetch of the first platform resolves whatever the registry
    answers; when the fetch fails it resolves with no config and no manifest
    and keeps the state the failed fetch left. *)
Lemma tryFirstPlatform_resolves repository platforms s :
  exists fetched s',
    tryFirstPlatform env repository platforms s = Some (Resolved fetched, s').
Proof.
  unfold tryFirstPlatform. destruct platforms as [|first rest].
  - unfold ret. eauto.
  - apply tryCatch_resolves, settles_fetchFirstPlatform.
Qed.

Lemma tryConfigBlob_resolves repository m s :
  exists cfg s', tryConfigBlob env repository m s = Some (Resolved cfg, s').
Proof.
  unfold tryConfigBlob. destruct (truthyS _).
  - apply tryCatch_resolves.
    apply settles_bind; [apply settles_getBlob | intros; apply settles_ret].
  - unfold ret. eauto.
Qed.

(** [getImageInfo] after its manifest has arrived. *)
Lemma getImageInfo_list repository tag s m s1 :
  getManifest env repository tag s = Some (Resolved m, s1) ->
  truthyB (isManifestList m) = true ->
  getImageInfo env repository tag s =
  (do fetched <- tryFirstPlatform env repository (listPlatforms m);
   ret (multiPlatformInfo m (fst fetched) (snd fetched))) s1.
Proof.
  intros Hm Hl. unfold getImageInfo at 1. unfold bind at 1.
  rewrite Hm, Hl. reflexivity.
Qed.

Lemma getImageInfo_single repository tag s m s1 :
  getManifest env repository tag s = Some (Resolved m, s1) ->
  truthyB (isManifestList m) = false ->
  getImageInfo env repository tag s =
  (do config <- tryConfigBlob env repository m;
   ret (singlePlatformInfo m config)) s1.
Proof.
  intros Hm Hl. unfold getImageInfo at 1. unfold bind at 1.
  rewrite Hm, Hl. reflexivity.
Qed.

(** C1: on a manifest that is not classified as a manifest list,
    [getImageInfo] resolves with [totalSize] the sum of the layer sizes plus
    the declared size of the config object, and with [isMultiPlatform]
    false. *)
Theorem getImageInfo_single_platform repository tag s m s1 :
  getManifest env repository tag s = Some (Resolved m, s1) ->
  truthyB (isManifestList m) = false ->
  exists info s',
    getImageInfo env repository tag s = Some (Resolved info, s') /\
    manifest info = m /\
    totalSize info
    = Zsum (map (fun layer => orZero (d_size layer)) (default [] (layers m)))
      + orZero (config m ≫= d_size) /\
    isMultiPlatform info = false.
Proof.
  intros Hm Hl. rewrite (getImageInfo_single _ _ _ _ _ Hm Hl). unfold bind.
  destruct (tryConfigBlob_resolves repository m s1) as (cfg & s' & ->).
  exists (singlePlatformInfo m cfg), s'. unfold ret. repeat split.
  simpl. unfold singleTotalSize.
  assert (Hsum : match layers m with
                 | Some ls => fold_left (fun sum layer => sum + orZero (d_size layer)) ls 0
                 | None => 0
                 end
                 = Zsum (map (fun layer => orZero (d_size layer)) (default [] (layers m)))).
  { destruct (layers m) as [ls|]; simpl; [|reflexivity]. now rewrite reduce_sum. }
  rewrite Hsum. unfold truthyZ.
  destruct (config m ≫= d_size) as [n|]; simpl; [|lia].
  destruct (Z.eqb_spec n 0); simpl; lia.
Qed.


(** C3: on a manifest list with at least one platform, when the request for
    the first platform's manifest fails, or that manifest arrives and the
    request for its config blob fails, [getImageInfo] still resolves, with
    [created], [author], [dockerVersion], the config and the first manifest
    all [null], and with the platforms and the total size of the list. *)
Theorem getImageInfo_tolerates_failed_subfetch repository tag s m s1 first rest :
  getManifest env repository tag s = Some (Resolved m, s1) ->
  truthyB (isManifestList m) = true ->
  listPlatforms m = first :: rest ->
  ((exists e s2,
      getPlatformManifest env repository (interpolate (pd_digest first)) s1
      = Some (Rejected e, s2)) \/
   (exists pm s2 e s3,
      getPlatformManifest env repository (interpolate (pd_digest first)) s1
      = Some (Resolved pm, s2) /\
      truthyS (config pm ≫= d_digest) = true /\
      getBlob env repository (interpolate (config pm ≫= d_digest)) s2
      = Some (Rejected e, s3))) ->
  exists info s',
    getImageInfo env repository tag s = Some (Resolved info, s') /\
    created info = None /\
    config_blob info = None /\
    author info = None /\
    dockerVersion info = None /\
    firstManifest info = None /\
    isMultiPlatform info = true /\
    platforms info = first :: rest /\
    totalSize info = listTotalSize m.
Proof.
  intros Hm Hl Hp Hfail. rewrite (getImageInfo_list _ _ _ _ _ Hm Hl).
  unfold bind at 1. rewrite Hp. unfold tryFirstPlatform, tryCatch.
  assert (Hrej : exists e s2,
             fetchFirstPlatform env repository first s1 = Some (Rejected e, s2)).
  { unfold fetchFirstPlatform. unfold bind at 1.
    destruct Hfail as [(e & s2 & ->) | (pm & s2 & e & s3 & -> & Hd & Hb)].
    - eauto.
    - unfold bind. rewrite Hd, Hb. eauto. }
  destruct Hrej as (e & s2 & ->). unfold ret.
  exists (multiPlatformInfo m None None), s2. simpl. rewrite Hp.
  repeat split.
Qed.

(** C10: on a manifest list, the entries without a [platform] are left out
    of [platforms], and [totalSize] is the sum of the sizes of the entries
    that appear in [platforms] plus the sum of the sizes of the entries that
    do not, a missing size counting as 0. *)
Theorem getImageInfo_counts_entries_without_platform repository tag s m s1 :
  getManifest env repository tag s = Some (Resolved m, s1) ->
  truthyB (isManifestList m) = true ->
  exists info s',
    getImageInfo env repository tag s = Some (Resolved info, s') /\
    Forall2 (fun d e => m_platform e <> None /\ d = describe e)
      (platforms info) (List.filter hasPlatform (default [] (manifests m))) /\
    totalSize info
    = Zsum (map (fun d => orZero (pd_size d)) (platforms info))
      + Zsum (map (fun e => orZero (m_size e))
                (List.filter (fun e => negb (hasPlatform e))
                   (default [] (manifests m)))).
Proof.
  intros Hm Hl. rewrite (getImageInfo_list _ _ _ _ _ Hm Hl). unfold bind.
  destruct (tryFirstPlatform_resolves repository (listPlatforms m) s1)
    as (fetched & s' & ->).
  exists (multiPlatformInfo m (fst fetched) (snd fetched)), s'. unfold ret.
  simpl. unfold listTotalSize, listPlatforms.
  destruct (manifests m) as [ms|]; simpl.
  - split; [reflexivity|]. split.
    + apply describe_filtered.
    + rewrite reduce_sum, map_map. simpl.
      rewrite (Zsum_filter (fun e => orZero (m_size e)) hasPlatform ms). lia.
  - repeat split. constructor.
Qed.

Lemma getCatalog_round s c last o w1 :
  getCredentials s = Some c ->
  truthyS (registryUrl c) = true ->
  respond_catalog env c 100 last (world s) = (o, w1) ->
  enqueueRequest (getCatalog env (Z.of_nat pageSize) last) s
  = Some (o, set_world w1 (log (Fetched (EpCatalog 100 last)) (log Queued s))).
Proof.
  intros Hc Hu Hr.
  unfold enqueueRequest, getCatalog, request, bind, modify, gets, ask.
  change (getCredentials (log Queued s)) with (getCredentials s).
  rewrite Hc, Hu. simpl. change (Z.of_nat pageSize) with 100.
  rewrite Hr. reflexivity.
Qed.

Lemma nextPage_full acc page :
  length page = 100%nat ->
  nextPage acc (mkCatalog (Some page)) = (acc ++ page, List.last page "").
Proof. intros H. unfold nextPage, pageSize. simpl. now rewrite H. Qed.

Lemma nextPage_final acc final :
  length (default [] (repositories_of final)) <> 100%nat ->
  nextPage acc final = (acc ++ default [] (repositories_of final), "").
Proof.
  intros H. unfold nextPage, pageSize. destruct (repositories_of final) as [page|]; simpl in *.
  - destruct page as [|x page]; simpl; [now rewrite app_nil_r|].
    simpl in H. destruct (Nat.eqb_spec (length page) 99); [lia | reflexivity].
  - now rewrite app_nil_r.
Qed.

Lemma paginate_follows full : forall s c final w' fuel acc last,
  getCredentials s = Some c ->
  truthyS (registryUrl c) = true ->
  Forall (fun page => length page = 100%nat /\ List.last page "" <> "") full ->
  length (default [] (repositories_of final)) <> 100%nat ->
  catalogServes env c full final last (world s) w' ->
  (length full < fuel)%nat ->
  exists s',
    paginate env fuel acc last s
    = Some (Resolved (acc ++ concat full ++ default [] (repositories_of final)), s') /\
    traffic s' = traffic s ++ pagination full last /\
    world s' = w'.
Proof.
  induction full as [|page full IH]; intros s c final w' fuel acc last Hc Hu Hfull Hfin Hs Hfuel;
    (destruct fuel as [|fuel]; [simpl in Hfuel; lia|]); simpl in Hs.
  - cbn [paginate]. unfold bind at 1.
    rewrite (getCatalog_round _ _ _ _ _ Hc Hu Hs), (nextPage_final _ _ Hfin).
    simpl. unfold ret. eexists. split; [reflexivity|]. split; [|reflexivity].
    simpl. now rewrite <- app_assoc.
  - destruct Hs as (w1 & Hr & Hs). inversion Hfull as [|? ? [Hlen Hlast] Hfull']; subst.
    cbn [paginate]. unfold bind at 1.
    rewrite (getCatalog_round _ _ _ _ _ Hc Hu Hr), (nextPage_full _ _ Hlen).
    destruct (String.eqb_spec (List.last page "") ""); [contradiction|].
    destruct (IH (set_world w1 (log (Fetched (EpCatalog 100 last)) (log Queued s)))
                c final w' fuel (acc ++ page) (List.last page "")) as (s' & H1 & H2 & H3);
      try assumption; [simpl in Hfuel; lia|].
    exists s'. split; [|split; [|exact H3]].
    + rewrite H1. simpl. now rewrite <- !app_assoc.
    + rewrite H2. simpl. now rewrite <- !app_assoc.
Qed.

(** C6: when the registry serves full pages (each of exactly [pageSize]
    names, the last of them a proper name) and then a page whose count is not
    [pageSize], [getAllRepositories] resolves with the names of all these
    pages in order, after one throttled catalog call per page, each at the
    cursor the page before left, and none after the short page. *)
Theorem getAllRepositories_paginates s c full final w' fuel :
  getCredentials s = Some c ->
  truthyS (registryUrl c) = true ->
  Forall (fun page => length page = 100%nat /\ List.last page "" <> "") full ->
  length (default [] (repositories_of final)) <> 100%nat ->
  catalogServes env c full final "" (world s) w' ->
  (length full < fuel)%nat ->
  exists s',
    getAllRepositories env fuel s
    = Some (Resolved (concat full ++ default [] (repositories_of final)), s') /\
    traffic s' = traffic s ++ pagination full "" /\
    throttledCalls (traffic s') = (throttledCalls (traffic s) + length full + 1)%nat /\
    world s' = w'.
Proof.
  intros Hc Hu Hfull Hfin Hs Hfuel.
  destruct (paginate_follows full s c final w' fuel [] "" Hc Hu Hfull Hfin Hs Hfuel)
    as (s' & H1 & H2 & H3).
  exists s'. split; [exact H1|]. split; [exact H2|]. split; [|exact H3].
  rewrite H2, throttledCalls_app, throttledCalls_pagination. lia.
Qed.

End Facts.

(** The example of C6: a catalog of 237 names served in pages of 100, 100
    and 37. *)
Lemma getAllRepositories_paginates_witness :
  exists s',
    getAllRepositories (Mock.env Mock.withCatalog) 3 Mock.start
    = Some (Resolved Mock.names, s') /\
    length Mock.names = 237%nat /\
    throttledCalls (traffic s') = 3%nat.
Proof.
  destruct (getAllRepositories_paginates (Mock.env Mock.withCatalog)
              Mock.start Mock.creds
              [firstn 100 Mock.names; firstn 100 (skipn 100 Mock.names)]
              (mkCatalog (Some (skipn 200 Mock.names))) tt 3)
    as (s' & H & _ & Hn & _).
  - reflexivity.
  - reflexivity.
  - repeat constructor; vm_compute; discriminate.
  - vm_compute. discriminate.
  - exists tt. split; [reflexivity|]. exists tt. split; reflexivity.
  - simpl. lia.
  - exists s'. split; [exact H|]. split; [reflexivity|]. exact Hn.
Defined.

(** The example of C1: layers of 10, 20 and 30 bytes and a config of 5. *)
Lemma getImageInfo_single_platform_witness :
  exists info s',
    getImageInfo (Mock.env (Mock.serving Mock.singleManifest)) "library/app" "latest"
      Mock.start = Some (Resolved info, s') /\
    totalSize info = 65 /\ isMultiPlatform info = false.
Proof.
  destruct (getImageInfo_single_platform
              (Mock.env (Mock.serving Mock.singleManifest)) "library/app" "latest"
              Mock.start Mock.singleManifest
              (log (Fetched (EpManifest "library/app" "latest")) (log Queued Mock.start)))
    as (info & s' & H & _ & Ht & Hi).
  - reflexivity.
  - reflexivity.
  - exists info, s'. split; [exact H|]. split; [|exact Hi].
    rewrite Ht. reflexivity.
Defined.


(** The example of C3: the registry serves the list and refuses the manifest
    of its first platform. *)
Lemma getImageInfo_tolerates_failed_subfetch_witness :
  exists info s',
    getImageInfo (Mock.env (Mock.serving Mock.listManifest)) "library/app" "latest"
      Mock.start = Some (Resolved info, s') /\
    created info = None /\ isMultiPlatform info = true /\
    length (platforms info) = 2%nat /\ totalSize info = 250.
Proof.
  destruct (getImageInfo_tolerates_failed_subfetch
              (Mock.env (Mock.serving Mock.listManifest)) "library/app" "latest"
              Mock.start Mock.listManifest
              (log (Fetched (EpManifest "library/app" "latest")) (log Queued Mock.start))
              (describe (mkEntry (Some (Mock.linux "amd64")) (Some "sha256:amd64") (Some 100)))
              [describe (mkEntry (Some (Mock.linux "arm64")) (Some "sha256:arm64") (Some 150))])
    as (info & s' & H & Hc & _ & _ & _ & _ & Hi & Hp & Ht).
  - reflexivity.
  - reflexivity.
  - reflexivity.
  - left. eexists _, _. reflexivity.
  - exists info, s'. split; [exact H|]. split; [exact Hc|]. split; [exact Hi|].
    split; [rewrite Hp; reflexivity | rewrite Ht; reflexivity].
Defined.

(** The example of C10: an entry of 40 bytes without a platform, and an
    entry with a platform and no size. *)
Lemma getImageInfo_counts_entries_without_platform_witness :
  exists info s',
    getImageInfo (Mock.env (Mock.serving Mock.listWithAttestation))
      "library/app" "latest" Mock.start = Some (Resolved info, s') /\
    length (platforms info) = 2%nat /\ totalSize info = 140.
Proof.
  destruct (getImageInfo_counts_entries_without_platform
              (Mock.env (Mock.serving Mock.listWithAttestation))
              "library/app" "latest" Mock.start Mock.listWithAttestation
              (log (Fetched (EpManifest "library/app" "latest")) (log Queued Mock.start)))
    as (info & s' & H & Hp & Ht).
  - reflexivity.
  - reflexivity.
  - exists info, s'. split; [exact H|]. split.
    + rewrite (Forall2_length _ _ _ Hp). reflexivity.
    + rewrite Ht. clear -Hp. simpl in Hp.
      repeat match goal with
             | K : Forall2 _ _ _ |- _ => inversion K; clear K; subst
             | K : _ /\ _ |- _ => destruct K
             end.
      subst. reflexivity.
Defined.

End RegistryApiFacts.

(** ** The image cache *)
Module ImageCacheFacts.
Import ImageCache.

Section Facts.
Context {Val : Type}.
Variable stringify : CacheEntry Val -> string.
Variable parse : string -> option (CacheEntry Val).
Variable quotaExceeded : gmap string string -> string -> string -> bool.

(** The three readers are one reader at the key of their namespace. *)
Lemma get_at ns now (ls : gmap string string) :
  get parse ns now ls =
  match ls !! keyOf ns with
  | None => (None, ls)
  | Some cached =>
      if String.eqb cached "" then (None, ls)
      else match parse cached with
           | None => (None, ls)
           | Some data =>
               if now - timestamp data >? CACHE_TTL
               then (None, delete (keyOf ns) ls)
               else (Some (value data), ls)
           end
  end.
Proof. destruct ns; reflexivity. Qed.

(** The three writers are one writer at the key of their namespace. *)
Lemma save_at ns v now (ls : gmap string string) :
  save stringify quotaExceeded ns v now ls =
  match setItem quotaExceeded (keyOf ns) (stringify (mkEntry v now)) ls with
  | Some ls' => ls'
  | None => ls
  end.
Proof. destruct ns; reflexivity. Qed.

(** Reading an entry older than the TTL misses and removes it; the other
    keys keep what they hold. *)
Lemma get_expired ns now (ls : gmap string string) cached data :
  ls !! keyOf ns = Some cached ->
  cached <> "" ->
  parse cached = Some data ->
  now - timestamp data > CACHE_TTL ->
  get parse ns now ls = (None, delete (keyOf ns) ls).
Proof.
  intros Hl Hne Hp Ht. rewrite get_at, Hl.
  destruct (String.eqb_spec cached ""); [contradiction|]. rewrite Hp.
  destruct (Z.gtb_spec (now - timestamp data) CACHE_TTL); [reflexivity | lia].
Qed.

Lemma get_fresh ns now (ls : gmap string string) cached data :
  ls !! keyOf ns = Some cached ->
  cached <> "" ->
  parse cached = Some data ->
  now - timestamp data <= CACHE_TTL ->
  get parse ns now ls = (Some (value data), ls).
Proof.
  intros Hl Hne Hp Ht. rewrite get_at, Hl.
  destruct (String.eqb_spec cached ""); [contradiction|]. rewrite Hp.
  destruct (Z.gtb_spec (now - timestamp data) CACHE_TTL); [lia | reflexivity].
Qed.

(** C7: in each namespace, when the browser accepts the write and the entry
    survives serialisation, a [save] of [v] at time [t0] followed by a [get]
    at time [now] returns [v] and leaves the store alone as long as
    [now - t0] is at most the TTL of 24 hours; once [now - t0] exceeds the
    TTL the [get] misses and leaves the store without the entry, so that
    every later [get] misses as well. *)
Theorem cache_save_get_ttl ns v t0 now (ls : gmap string string) :
  quotaExceeded ls (keyOf ns) (stringify (mkEntry v t0)) = false ->
  stringify (mkEntry v t0) <> "" ->
  parse (stringify (mkEntry v t0)) = Some (mkEntry v t0) ->
  CACHE_TTL = 24 * 60 * 60 * 1000 /\
  (now - t0 <= CACHE_TTL ->
   get parse ns now (save stringify quotaExceeded ns v t0 ls)
   = (Some v, save stringify quotaExceeded ns v t0 ls)) /\
  (now - t0 > CACHE_TTL ->
   get parse ns now (save stringify quotaExceeded ns v t0 ls)
   = (None, delete (keyOf ns) (save stringify quotaExceeded ns v t0 ls)) /\
   delete (keyOf ns) (save stringify quotaExceeded ns v t0 ls) !! keyOf ns = None /\
   forall later,
     fst (get parse ns later
            (snd (get parse ns now (save stringify quotaExceeded ns v t0 ls))))
     = None).
Proof.
  intros Hq Hne Hp. split; [reflexivity|].
  assert (Hl : save stringify quotaExceeded ns v t0 ls !! keyOf ns
               = Some (stringify (mkEntry v t0))).
  { rewrite save_at. unfold setItem. rewrite Hq. apply lookup_insert_eq. }
  split.
  - intros Ht. apply (get_fresh _ _ _ _ _ Hl Hne Hp Ht).
  - intros Ht. rewrite (get_expired _ _ _ _ _ Hl Hne Hp Ht). simpl.
    split; [reflexivity|]. split; [apply lookup_delete_eq|].
    intros later. rewrite get_at, lookup_delete_eq. reflexivity.
Qed.

End Facts.

(** A tag list saved and read back one second later, and read again a
    millisecond after the TTL has passed. *)
Lemma cache_save_get_ttl_witness :
  let saved :=
    save Mock.encodeNames (fun _ _ _ => false) (TagsOf "library/app")
      ["latest"; "1.0"] 1700000000000 ∅ in
  fst (get Mock.decodeNames (TagsOf "library/app") 1700000001000 saved)
  = Some ["latest"; "1.0"] /\
  (get Mock.decodeNames (TagsOf "library/app") 1700086400001 saved).1 = None /\
  (get Mock.decodeNames (TagsOf "library/app") 1700086400001 saved).2
    !! keyOf (TagsOf "library/app") = None.
Proof.
  destruct (cache_save_get_ttl Mock.encodeNames Mock.decodeNames
              (fun _ _ _ => false) (TagsOf "library/app") ["latest"; "1.0"]
              1700000000000 1700000001000 ∅) as (_ & Hfresh & _);
    [reflexivity | discriminate | reflexivity |].
  destruct (cache_save_get_ttl Mock.encodeNames Mock.decodeNames
              (fun _ _ _ => false) (TagsOf "library/app") ["latest"; "1.0"]
              1700000000000 1700086400001 ∅) as (_ & _ & Hstale);
    [reflexivity | discriminate | reflexivity |].
  cbv zeta. split; [|split].
  - rewrite Hfresh; [reflexivity|]. vm_compute. discriminate.
  - destruct Hstale as (-> & _); [reflexivity | reflexivity].
  - destruct Hstale as (-> & Hgone & _); [reflexivity | exact Hgone].
Defined.

End ImageCacheFacts.

(** ** The composable *)
Module UseRegistryFacts.
Import RegistryApi UseRegistry Spec RegistryApiFacts.

Section Facts.
Context {World : Type} (env : Env World).
Implicit Types (s : Sys World).












(** One request through the throttler is one throttled call. *)
Lemma throttled_request {A} ep (respond : Credentials -> World -> Outcome A * World)
  s o s' :
  enqueueRequest (request ep respond) s = Some (o, s') ->
  throttledCalls (traffic s') = S (throttledCalls (traffic s)).
Proof.
  unfold enqueueRequest, request, modify, gets, throw, ask, bind. simpl.
  change (getCredentials (log Queued s)) with (getCredentials s).
  destruct (getCredentials s) as [c|]; [|intros H; inversion H; apply throttled_log].
  destruct (truthyS (registryUrl c)); [|intros H; inversion H; apply throttled_log].
  simpl. destruct (respond c (world s)). intros H; inversion H. simpl.
  rewrite throttledCalls_app, throttled_log. unfold throttledCalls. simpl. lia.
Qed.



(** *** Running the combinators *)

Lemma bind_resolved {A B} (c : M World A) (k : A -> M World B) s a s' :
  c s = Some (Resolved a, s') -> bind c k s = k a s'.
Proof. intros H. unfold bind. now rewrite H. Qed.

Lemma bind_rejected {A B} (c : M World A) (k : A -> M World B) s e s' :
  c s = Some (Rejected e, s') -> bind c k s = Some (Rejected e, s').
Proof. intros H. unfold bind. now rewrite H. Qed.

Lemma bind_assign {B} f (k : unit -> M World B) s :
  bind (assign f) k s = k tt (set_state (f (state s)) s).
Proof. reflexivity. Qed.

Lemma bind_modify {B} f (k : unit -> M World B) s :
  bind (modify f) k s = k tt (f s).
Proof. reflexivity. Qed.

Lemma tryCatch_resolved {A} (c : M World A) h s a s' :
  c s = Some (Resolved a, s') -> tryCatch c h s = Some (Resolved a, s').
Proof. intros H. unfold tryCatch. now rewrite H. Qed.

Lemma tryCatch_rejected {A} (c : M World A) h s e s' :
  c s = Some (Rejected e, s') -> tryCatch c h s = h e s'.
Proof. intros H. unfold tryCatch. now rewrite H. Qed.

Lemma tryFinally_assign {A} (c : M World A) f s o s' :
  c s = Some (o, s') ->
  tryFinally c (assign f) s = Some (o, set_state (f (state s')) s').
Proof. intros H. unfold tryFinally. now rewrite H. Qed.

(** *** The credential store and the connection test *)










End Facts.





End UseRegistryFacts.

(** ** More on the request throttler *)
Module ThrottlerMore.
Import Throttler ThrottlerFacts.

Section Facts.
Context {Task Value : Type}.

(** X1: after every history of submissions, completions and timeouts,
    [isProcessing] is set exactly while the one activation of the loop is
    suspended, a stopped loop has left no task in the queue, and the loop
    sleeps only with a task still waiting. *)
Theorem throttler_strands_no_task (ins : list (@Input Task Value)) :
  consistent (fst (run ins idle)).
Proof.
  assert (Hidle : consistent (@idle Task)) by (split; reflexivity).
  apply (run_invariant ins idle Hidle).
Qed.

Lemma run_sequential (jobs : list (Task * Outcome Value)) :
  run (flat_map (fun j => [Enqueue (fst j); Settled (snd j)]) jobs) idle
  = (idle, flat_map (fun j => [Call (fst j); settle (fst j) (snd j)]) jobs).
Proof.
  induction jobs as [|[t o] jobs IH]; [reflexivity|].
  change (flat_map (fun j => [Enqueue (fst j); Settled (snd j)]) ((t, o) :: jobs))
    with ([@Enqueue Task Value t; Settled o]
            ++ flat_map (fun j => [Enqueue (fst j); Settled (snd j)]) jobs).
  rewrite run_app, idle_roundtrip, IH. reflexivity.
Qed.

(** X2: a caller that awaits each request before it submits the next is
    never delayed: every request is invoked on submission, the throttler is
    idle after each completion, and no timeout is waited, however many
    requests follow one another. *)
Theorem sequential_caller_never_waits (jobs : list (Task * Outcome Value)) :
  let history := flat_map (fun j => [@Enqueue Task Value (fst j); Settled (snd j)]) jobs in
  fst (run history idle) = idle /\
  called (snd (run history idle)) = map fst jobs /\
  delays (snd (run history idle)) = [].
Proof.
  cbv zeta. rewrite run_sequential. cbn [fst snd]. split; [reflexivity|].
  induction jobs as [|[t o] jobs [IH1 IH2]]; [split; reflexivity|].
  cbn [flat_map app fst snd map]. destruct o; cbn [settle called delays];
    rewrite IH1, IH2; split; reflexivity.
Qed.

End Facts.
End ThrottlerMore.

(** ** More on the image cache *)
Module ImageCacheMore.
Import ImageCache ImageCacheRest ImageCacheFacts RegistryApiRest.

Lemma prefix_append (p s : string) : String.prefix p (p +:+ s) = true.
Proof.
  induction p as [|a p IH]; simpl; [destruct s; reflexivity|].
  destruct (Ascii.ascii_dec a a); [exact IH | congruence].
Qed.

Lemma append_inv_head (p a b : string) : p +:+ a = p +:+ b -> a = b.
Proof. induction p as [|c p IH]; simpl; intros H; [exact H | inversion H; auto]. Qed.

Lemma keyOf_prefixed ns : String.prefix CACHE_PREFIX (keyOf ns) = true.
Proof. destruct ns; apply prefix_append. Qed.

Lemma contains_colon_cons a s :
  contains (String a s) ":" = false -> a <> ":"%char /\ contains s ":" = false.
Proof.
  change (contains (String a s) ":")
    with ((if Ascii.ascii_dec ":" a then String.prefix "" s else false)
          || contains s ":").
  destruct (Ascii.ascii_dec ":" a) as [<-|Hne].
  - destruct s; discriminate.
  - simpl. intros H. split; [congruence | exact H].
Qed.

(** A name without a colon ends at the first colon of [name:rest]. *)
Lemma split_at_colon (u u' p p' : string) :
  contains u ":" = false -> contains u' ":" = false ->
  u +:+ ":" +:+ p = u' +:+ ":" +:+ p' -> u = u' /\ p = p'.
Proof.
  revert u'. induction u as [|a u IH]; intros [|a' u'] Hu Hu' H; simpl in H.
  - inversion H. auto.
  - apply contains_colon_cons in Hu' as [Hne _]. inversion H. congruence.
  - apply contains_colon_cons in Hu as [Hne _]. inversion H. congruence.
  - apply contains_colon_cons in Hu as [_ Hu].
    apply contains_colon_cons in Hu' as [_ Hu'].
    inversion H; subst. destruct (IH u' Hu Hu' H2) as [-> ->]. auto.
Qed.

Lemma removePrefixed_lookup (ks : list string) (ls : gmap string string) k :
  removePrefixed ks ls !! k =
  if String.prefix CACHE_PREFIX k && bool_decide (k ∈ ks) then None else ls !! k.
Proof.
  revert ls. induction ks as [|key ks IH]; intros ls; simpl.
  - now rewrite andb_false_r.
  - unfold removePrefixed in *. simpl. rewrite IH.
    destruct (String.prefix CACHE_PREFIX k) eqn:Ek; simpl.
    + destruct (decide (k = key)) as [->|Hne].
      * rewrite Ek, lookup_delete_eq.
        rewrite (bool_decide_eq_true_2 (key ∈ key :: ks)) by left.
        now destruct (bool_decide (key ∈ ks)).
      * assert (Hin : bool_decide (k ∈ key :: ks) = bool_decide (k ∈ ks)).
        { apply bool_decide_ext. rewrite elem_of_cons. tauto. }
        rewrite Hin. destruct (bool_decide (k ∈ ks)); [reflexivity|].
        destruct (String.prefix CACHE_PREFIX key); [|reflexivity].
        now rewrite lookup_delete_ne.
    + destruct (String.prefix CACHE_PREFIX key) eqn:Ekey; [|reflexivity].
      rewrite lookup_delete_ne; [reflexivity|]. congruence.
Qed.

Lemma elem_of_keys (ls : gmap string string) k : k ∈ keys ls <-> is_Some (ls !! k).
Proof.
  unfold keys. rewrite list_elem_of_fmap. split.
  - intros ([k' v] & -> & H). apply elem_of_map_to_list in H. eauto.
  - intros [v H]. exists (k, v). split; [reflexivity|]. now apply elem_of_map_to_list.
Qed.

Lemma clearAll_lookup (ls : gmap string string) k :
  clearAll ls !! k = if String.prefix CACHE_PREFIX k then None else ls !! k.
Proof.
  unfold clearAll. rewrite removePrefixed_lookup.
  destruct (String.prefix CACHE_PREFIX k); [|reflexivity]. simpl.
  destruct (decide (k ∈ keys ls)) as [Hin|Hin].
  - now rewrite bool_decide_eq_true_2.
  - rewrite bool_decide_eq_false_2 by assumption.
    rewrite elem_of_keys in Hin. destruct (ls !! k); [|reflexivity].
    exfalso. eauto.
Qed.

Section Facts.
Context {Val Val' : Type}.
Variable stringify : CacheEntry Val -> string.
Variable parse' : string -> option (CacheEntry Val').
Variable quotaExceeded : gmap string string -> string -> string -> bool.

(** X3: a [save] changes the store at its own key at most: every other key
    keeps what it held, a refused write changes nothing at all, and a [get]
    under any other key, of whatever namespace and type, answers what it
    answered before the [save]. *)
Theorem save_touches_only_its_key ns (v : Val) t (ls : gmap string string) :
  (forall k, k <> keyOf ns ->
     save stringify quotaExceeded ns v t ls !! k = ls !! k) /\
  (quotaExceeded ls (keyOf ns) (stringify (mkEntry v t)) = true ->
     save stringify quotaExceeded ns v t ls = ls) /\
  (forall ns' now, keyOf ns' <> keyOf ns ->
     fst (get parse' ns' now (save stringify quotaExceeded ns v t ls))
     = fst (get parse' ns' now ls)).
Proof.
  assert (Hother : forall k, k <> keyOf ns ->
            save stringify quotaExceeded ns v t ls !! k = ls !! k).
  { intros k Hk. rewrite save_at. unfold setItem.
    destruct (quotaExceeded _ _ _); [reflexivity|]. now apply lookup_insert_ne. }
  split; [exact Hother|]. split.
  - intros Hq. rewrite save_at. unfold setItem. now rewrite Hq.
  - intros ns' now Hne. rewrite !get_at, (Hother _ Hne).
    destruct (ls !! keyOf ns') as [cached|]; [|reflexivity].
    destruct (String.eqb cached ""); [reflexivity|].
    destruct (parse' cached) as [data|]; [|reflexivity].
    destruct (now - timestamp data >? CACHE_TTL); reflexivity.
Qed.

(** X5: a [get] answers a value only from an entry of its own key that
    parses and is not older than the TTL, and it changes the store only to
    remove such an entry that is older; on an absent key, an empty string
    or text that does not parse it misses and leaves the store as it is. *)
Theorem get_reads_fresh_evicts_stale ns now (ls : gmap string string) :
  (exists cached data,
     ls !! keyOf ns = Some cached /\ parse' cached = Some data /\
     now - timestamp data <= CACHE_TTL /\
     get parse' ns now ls = (Some (value data), ls)) \/
  (exists cached data,
     ls !! keyOf ns = Some cached /\ parse' cached = Some data /\
     now - timestamp data > CACHE_TTL /\
     get parse' ns now ls = (None, delete (keyOf ns) ls)) \/
  ((ls !! keyOf ns = None \/ ls !! keyOf ns = Some "" \/
    exists cached, ls !! keyOf ns = Some cached /\ parse' cached = None) /\
   get parse' ns now ls = (None, ls)).
Proof.
  rewrite get_at. destruct (ls !! keyOf ns) as [cached|] eqn:El.
  2:{ right; right. auto. }
  destruct (String.eqb_spec cached "") as [->|Hne].
  { right; right. auto. }
  destruct (parse' cached) as [data|] eqn:Ep.
  2:{ right; right. split; [|reflexivity]. right; right. eauto. }
  destruct (Z.gtb_spec (now - timestamp data) CACHE_TTL).
  - right; left. exists cached, data. repeat split; auto. lia.
  - left. exists cached, data. repeat split; auto.
Qed.

(** X6: [clearAll] removes exactly the keys that start with the prefix of
    the cache: every other key of [localStorage] keeps its item, and after it
    every [get], in every namespace, misses. *)
Theorem clearAll_removes_the_cache_only (ls : gmap string string) :
  (forall k, clearAll ls !! k
             = if String.prefix CACHE_PREFIX k then None else ls !! k) /\
  (forall ns now, get parse' ns now (clearAll ls) = (None, clearAll ls)).
Proof.
  split; [apply clearAll_lookup|].
  intros ns now. rewrite get_at, clearAll_lookup, keyOf_prefixed. reflexivity.
Qed.

End Facts.

(** X4: the keys of the three namespaces never meet; two repositories have
    different tag keys; and two (repository, tag) pairs have different
    image-info keys as long as the repository names hold no colon. *)
Theorem cache_keys_do_not_collide (r r' t t' : string) :
  keyOf (TagsOf r) <> keyOf (ImageInfoOf r' t') /\
  keyOf (TagsOf r) <> keyOf RepositoryList /\
  keyOf (ImageInfoOf r t) <> keyOf RepositoryList /\
  (keyOf (TagsOf r) = keyOf (TagsOf r') -> r = r') /\
  (contains r ":" = false -> contains r' ":" = false ->
   keyOf (ImageInfoOf r t) = keyOf (ImageInfoOf r' t') -> r = r' /\ t = t').
Proof.
  split; [intros H; simpl in H; discriminate H|].
  split; [intros H; simpl in H; discriminate H|].
  split; [intros H; simpl in H; discriminate H|].
  split.
  - intros H. unfold keyOf, getKey in H. now do 3 apply append_inv_head in H.
  - intros Hr Hr' H. apply (split_at_colon r r' t t' Hr Hr').
    unfold keyOf, getKey in H. now do 3 apply append_inv_head in H.
Qed.

Lemma Zsum_permutation (l l' : list Z) : l ≡ₚ l' -> Spec.Zsum l = Spec.Zsum l'.
Proof.
  unfold Spec.Zsum. induction 1; simpl; lia.
Qed.

Lemma sizeOver_sum (ks : list string) (ls : gmap string string) a :
  sizeOver ks ls a
  = a + Spec.Zsum
          (map (fun key =>
                  if String.prefix CACHE_PREFIX key
                  then Z.of_nat (String.length (default "" (ls !! key)))
                  else 0) ks).
Proof.
  revert a. unfold sizeOver, Spec.Zsum.
  induction ks as [|key ks IH]; intros a; simpl; [lia|].
  rewrite IH. destruct (String.prefix CACHE_PREFIX key); lia.
Qed.

Lemma keys_insert (ls : gmap string string) k v :
  ls !! k = None -> keys (<[k := v]> ls) ≡ₚ k :: keys ls.
Proof.
  intros H. unfold keys. rewrite (map_to_list_insert ls k v H). reflexivity.
Qed.

(** X7: [getCacheSize] counts the entries of the cache and nothing else: it
    is never negative, it is 0 after [clearAll], and a new item of
    [localStorage] adds the length of its text if its key carries the prefix
    of the cache and nothing if it does not. *)
Theorem cache_size_counts_cache_entries (ls : gmap string string) :
  0 <= getCacheSize ls /\
  getCacheSize (clearAll ls) = 0 /\
  (forall k v, ls !! k = None ->
     getCacheSize (<[k := v]> ls)
     = getCacheSize ls
       + if String.prefix CACHE_PREFIX k then Z.of_nat (String.length v) else 0).
Proof.
  unfold getCacheSize. split; [|split].
  - rewrite sizeOver_sum. simpl.
    induction (keys ls) as [|key ks IH]; simpl; [reflexivity|].
    unfold Spec.Zsum in *. simpl. destruct (String.prefix CACHE_PREFIX key); lia.
  - rewrite sizeOver_sum. simpl.
    assert (Hk : forall key, key ∈ keys (clearAll ls) ->
                   String.prefix CACHE_PREFIX key = false).
    { intros key Hin. apply elem_of_keys in Hin as [v Hv].
      rewrite clearAll_lookup in Hv.
      destruct (String.prefix CACHE_PREFIX key); [discriminate | reflexivity]. }
    induction (keys (clearAll ls)) as [|key ks IH]; [reflexivity|].
    unfold Spec.Zsum in *. simpl. rewrite (Hk key) by left.
    rewrite IH; [reflexivity|]. intros key' Hin. apply Hk. now right.
  - intros k v Hnone. rewrite !sizeOver_sum. simpl.
    rewrite (Zsum_permutation _ _
               (fmap_Permutation _ _ _ (keys_insert ls k v Hnone))).
    unfold Spec.Zsum. simpl. rewrite lookup_insert_eq. simpl.
    assert (Hext : forall ks, k ∉ ks ->
              foldr Z.add 0
                (map (fun key =>
                        if String.prefix CACHE_PREFIX key
                        then Z.of_nat (String.length (default "" (<[k:=v]> ls !! key)))
                        else 0) ks)
              = foldr Z.add 0
                  (map (fun key =>
                          if String.prefix CACHE_PREFIX key
                          then Z.of_nat (String.length (default "" (ls !! key)))
                          else 0) ks)).
    { induction ks as [|key ks IH]; intros Hnin; [reflexivity|]. simpl.
      rewrite not_elem_of_cons in Hnin. destruct Hnin as [Hne Hnin].
      rewrite lookup_insert_ne by congruence. now rewrite IH. }
    rewrite Hext.
    + destruct (String.prefix CACHE_PREFIX k); lia.
    + rewrite elem_of_keys, Hnone. intros [? ?]; discriminate.
Qed.

Lemma cache_size_counts_cache_entries_witness :
  getCacheSize (<["registry_lens_cache:tags:library/app" := "17:latest"]>
                  (<["theme" := "dark"]> ∅)) = 9.
Proof.
  destruct (cache_size_counts_cache_entries (<["theme" := "dark"]> ∅))
    as (_ & _ & Hins).
  rewrite Hins by reflexivity.
  destruct (cache_size_counts_cache_entries ∅) as (_ & _ & Hins0).
  rewrite Hins0 by reflexivity. reflexivity.
Defined.

Lemma save_touches_only_its_key_witness :
  save Mock.encodeNames (fun _ _ _ => false) (TagsOf "library/app")
    ["latest"] 1700000000000 (<["theme" := "dark"]> ∅) !! "theme" = Some "dark" /\
  fst (get Mock.decodeNames RepositoryList 1700000000000
         (save Mock.encodeNames (fun _ _ _ => false) (TagsOf "library/app")
            ["latest"] 1700000000000 ∅)) = None /\
  save Mock.encodeNames (fun _ _ _ => true) (TagsOf "library/app")
    ["latest"] 1700000000000 ∅ = ∅.
Proof.
  split; [|split].
  - destruct (save_touches_only_its_key Mock.encodeNames Mock.decodeNames
                (fun _ _ _ => false) (TagsOf "library/app") ["latest"]
                1700000000000 (<["theme" := "dark"]> ∅)) as (H & _ & _).
    rewrite H; [reflexivity | discriminate].
  - destruct (save_touches_only_its_key Mock.encodeNames Mock.decodeNames
                (fun _ _ _ => false) (TagsOf "library/app") ["latest"]
                1700000000000 ∅) as (_ & _ & H).
    rewrite H; [reflexivity | discriminate].
  - destruct (save_touches_only_its_key Mock.encodeNames Mock.decodeNames
                (fun _ _ _ => true) (TagsOf "library/app") ["latest"]
                1700000000000 ∅) as (_ & H & _).
    apply H. reflexivity.
Defined.

Lemma cache_keys_do_not_collide_witness :
  keyOf (TagsOf "library/app") <> keyOf (TagsOf "library/web") /\
  keyOf (ImageInfoOf "library/app" "1.0") <> keyOf (ImageInfoOf "library/app" "1.1").
Proof.
  destruct (cache_keys_do_not_collide "library/app" "library/web" "1.0" "1.1")
    as (_ & _ & _ & Ht & _).
  destruct (cache_keys_do_not_collide "library/app" "library/app" "1.0" "1.1")
    as (_ & _ & _ & _ & Hi).
  split.
  - intros H. apply Ht in H. discriminate H.
  - intros H. apply Hi in H; [|reflexivity..]. destruct H as [_ H]. discriminate H.
Defined.

End ImageCacheMore.

(** ** More on the registry client *)
Module RegistryApiMore.
Import RegistryApi RegistryApiRest Spec SpecRest RegistryApiFacts UseRegistryFacts.

Lemma dropTrailingSlash_slash (u : string) : dropTrailingSlash (u +:+ "/") = u.
Proof.
  induction u as [|a u IH]; [reflexivity|].
  change (String a u +:+ "/") with (String a (u +:+ "/")).
  cbn [dropTrailingSlash]. rewrite IH.
  destruct u; reflexivity.
Qed.

Lemma dropTrailingSlash_other (u : string) (a : ascii) :
  a <> "/"%char ->
  dropTrailingSlash (u +:+ String a "") = u +:+ String a "".
Proof.
  intros Ha. induction u as [|b u IH].
  - simpl. destruct (Ascii.eqb_spec a "/"); [contradiction | reflexivity].
  - change (String b u +:+ String a "") with (String b (u +:+ String a "")).
    cbn [dropTrailingSlash]. rewrite IH. destruct u; reflexivity.
Qed.

Section Facts.
Context {World : Type} (env : Env World).
Implicit Types (s : Sys World).

Lemma request_unconfigured {A} ep
  (respond : Credentials -> World -> Outcome A * World) s :
  unconfigured s ->
  request ep respond s = Some (Rejected "Registry URL not configured", s).
Proof.
  intros H. unfold request, bind, gets, throw.
  destruct (getCredentials s) as [c|] eqn:E; [|reflexivity].
  now rewrite (H c E).
Qed.

Lemma enqueue_unconfigured {A} ep
  (respond : Credentials -> World -> Outcome A * World) s :
  unconfigured s ->
  enqueueRequest (request ep respond) s
  = Some (Rejected "Registry URL not configured", log Queued s).
Proof.
  intros H. unfold enqueueRequest. rewrite bind_modify.
  apply request_unconfigured. exact H.
Qed.

(** X8: a client without a registry URL asks the registry nothing: its
    reads are rejected with 'Registry URL not configured' after their one
    pass through the throttler, with the world as it was, [deleteManifest] is
    rejected at once, and [testConnection] reports the failure. *)
Theorem unconfigured_client_asks_nothing s repository tag fuel :
  unconfigured s ->
  getTags env repository s
    = Some (Rejected "Registry URL not configured", log Queued s) /\
  getImageInfo env repository tag s
    = Some (Rejected "Registry URL not configured", log Queued s) /\
  getAllRepositories env (S fuel) s
    = Some (Rejected "Registry URL not configured", log Queued s) /\
  testConnection env s
    = Some (Resolved (mkConnection false (Some "Registry URL not configured")), s) /\
  forall A (respond : Credentials -> string -> string -> World -> Outcome A * World),
    deleteManifest respond repository tag s
    = Some (Rejected "Registry URL not configured", s).
Proof.
  intros H. split; [|split; [|split; [|split]]].
  - now apply enqueue_unconfigured.
  - unfold getImageInfo. apply bind_rejected. now apply enqueue_unconfigured.
  - unfold getAllRepositories. cbn [paginate]. apply bind_rejected.
    now apply enqueue_unconfigured.
  - unfold testConnection. erewrite tryCatch_rejected; [reflexivity|].
    apply bind_rejected. now apply request_unconfigured.
  - intros A respond. now apply request_unconfigured.
Qed.

(** X9: [testConnection] never rejects and touches nothing but the log and
    the world: on a configured client it reports success exactly when the
    ping resolves, and otherwise the message of the error. *)
Theorem testConnection_reports_instead_of_throwing s :
  exists r s',
    testConnection env s = Some (Resolved r, s') /\
    credentials s' = credentials s /\ memoryCredentials s' = memoryCredentials s /\
    sessionStorage s' = sessionStorage s /\ localStorage s' = localStorage s /\
    state s' = state s /\
    forall c, getCredentials s = Some c -> truthyS (registryUrl c) = true ->
      r = match fst (respond_ping env c (world s)) with
          | Resolved _ => mkConnection true None
          | Rejected e => mkConnection false (Some e)
          end.
Proof.
  unfold testConnection, tryCatch, request, bind, gets, throw, modify, ask, ret.
  destruct (getCredentials s) as [c|] eqn:Ec.
  2:{ eexists _, _. split; [reflexivity|]. repeat split. intros; discriminate. }
  destruct (truthyS (registryUrl c)) eqn:Eu.
  2:{ eexists _, _. split; [reflexivity|]. repeat split. intros c' Hc' Hu'.
      inversion Hc'; subst. congruence. }
  simpl. destruct (respond_ping env c (world s)) as [[[]|e] w] eqn:Ep;
    eexists _, _; (split; [reflexivity|]); repeat split;
    intros c' Hc' _; inversion Hc'; subst; rewrite Ep; reflexivity.
Qed.

Lemma settles_getManifest repository tag : settles (getManifest env repository tag).
Proof. apply settles_enqueueRequest, settles_request. Qed.

(** X10: [getImageInfo] is rejected exactly when the request for the
    manifest of the tag is, with the same error and in the same state: no
    later failure reaches the caller. *)
Theorem getImageInfo_rejects_iff_manifest repository tag s e s' :
  getImageInfo env repository tag s = Some (Rejected e, s') <->
  getManifest env repository tag s = Some (Rejected e, s').
Proof.
  destruct (settles_getManifest repository tag s) as ([m|e0] & s1 & Hm).
  - split; [|rewrite Hm; discriminate].
    destruct (truthyB (isManifestList m)) eqn:El.
    + rewrite (getImageInfo_list _ _ _ _ _ _ Hm El). unfold bind.
      destruct (tryFirstPlatform_resolves env repository (listPlatforms m) s1)
        as (f & s2 & ->). unfold ret. discriminate.
    + rewrite (getImageInfo_single _ _ _ _ _ _ Hm El). unfold bind.
      destruct (tryConfigBlob_resolves env repository m s1) as (c & s2 & ->).
      unfold ret. discriminate.
  - unfold getImageInfo. rewrite (bind_rejected _ _ _ _ _ Hm), Hm.
    split; intros H; inversion H; reflexivity.
Qed.

(** *** Counting the calls put through the throttler *)

Lemma atMost_ret {A} (a : A) : atMost 0 (ret a : M World A).
Proof. intros s o s' H. unfold ret in H. inversion H. lia. Qed.

Lemma atMost_weaken {A} (c : M World A) n m :
  (n <= m)%nat -> atMost n c -> atMost m c.
Proof. intros Hnm Hc s o s' H. specialize (Hc s o s' H). lia. Qed.

Lemma atMost_bind {A B} (c : M World A) (k : A -> M World B) n m :
  atMost n c -> (forall a, atMost m (k a)) -> atMost (n + m) (bind c k).
Proof.
  intros Hc Hk s o s' H. unfold bind in H.
  destruct (c s) as [[[a|e] s1]|] eqn:E; [| |discriminate].
  - specialize (Hc _ _ _ E). specialize (Hk a _ _ _ H). lia.
  - inversion H; subst. specialize (Hc _ _ _ E). lia.
Qed.

Lemma atMost_tryCatch_ret {A} (c : M World A) (a0 : A) n :
  atMost n c -> atMost n (tryCatch c (fun _ => ret a0)).
Proof.
  intros Hc s o s' H. unfold tryCatch in H.
  destruct (c s) as [[[a|e] s1]|] eqn:E; [| |discriminate].
  - inversion H; subst. apply (Hc _ _ _ E).
  - unfold ret in H. inversion H; subst. apply (Hc _ _ _ E).
Qed.

Lemma atMost_request {A} ep (respond : Credentials -> World -> Outcome A * World) :
  atMost 1 (enqueueRequest (request ep respond)).
Proof. intros s o s' H. rewrite (throttled_request _ _ _ _ _ H). lia. Qed.

Lemma atMost_afterManifest repository m :
  atMost 2
    (if truthyB (isManifestList m)
     then do fetched <- tryFirstPlatform env repository (listPlatforms m);
          ret (multiPlatformInfo m (fst fetched) (snd fetched))
     else do config <- tryConfigBlob env repository m;
          ret (singlePlatformInfo m config)).
Proof.
  destruct (truthyB (isManifestList m)).
  - apply (atMost_bind _ _ 2 0); [|intros; apply atMost_ret].
    unfold tryFirstPlatform. destruct (listPlatforms m) as [|first rest].
    { apply (atMost_weaken _ 0); [lia | apply atMost_ret]. }
    apply atMost_tryCatch_ret. unfold fetchFirstPlatform.
    apply (atMost_bind _ _ 1 1); [apply atMost_request|].
    intros pm. apply (atMost_bind _ _ 1 0); [|intros; apply atMost_ret].
    destruct (truthyS _).
    + apply (atMost_bind _ _ 1 0); [apply atMost_request | intros; apply atMost_ret].
    + apply (atMost_weaken _ 0); [lia | apply atMost_ret].
  - apply (atMost_bind _ _ 2 0); [|intros; apply atMost_ret].
    unfold tryConfigBlob. destruct (truthyS _).
    + apply (atMost_weaken _ 1); [lia|]. apply atMost_tryCatch_ret.
      apply (atMost_bind _ _ 1 0); [apply atMost_request | intros; apply atMost_ret].
    + apply (atMost_weaken _ 0); [lia | apply atMost_ret].
Qed.

(** X11: whatever the registry answers, one [getImageInfo] puts at least
    one and at most three requests through the throttler. *)
Theorem getImageInfo_makes_one_to_three_calls repository tag s o s' :
  getImageInfo env repository tag s = Some (o, s') ->
  (throttledCalls (traffic s) + 1 <= throttledCalls (traffic s') /\
   throttledCalls (traffic s') <= throttledCalls (traffic s) + 3)%nat.
Proof.
  intros H. unfold getImageInfo, bind at 1 in H.
  destruct (getManifest env repository tag s) as [[[m|e] s1]|] eqn:Em;
    [| |discriminate].
  - pose proof (throttled_request _ _ _ _ _ Em) as H1.
    pose proof (atMost_afterManifest repository m _ _ _ H) as H2. lia.
  - inversion H; subst. rewrite (throttled_request _ _ _ _ _ Em). lia.
Qed.

(** X12: on a single-platform manifest the config blob is asked for only
    when the manifest names its digest; without a digest, or when the request
    for the blob fails, the info has no config, no platform and no creation
    date, and its total size is that of the manifest all the same; when the
    blob arrives the info has exactly one platform. *)
Theorem single_platform_config_is_optional repository tag s m s1 :
  getManifest env repository tag s = Some (Resolved m, s1) ->
  truthyB (isManifestList m) = false ->
  (platforms (singlePlatformInfo m None) = [] /\
   created (singlePlatformInfo m None) = None /\
   totalSize (singlePlatformInfo m None) = singleTotalSize m) /\
  (truthyS (config m ≫= d_digest) = false ->
   getImageInfo env repository tag s
   = Some (Resolved (singlePlatformInfo m None), s1)) /\
  (forall e s2,
     truthyS (config m ≫= d_digest) = true ->
     getBlob env repository (interpolate (config m ≫= d_digest)) s1
     = Some (Rejected e, s2) ->
     getImageInfo env repository tag s
     = Some (Resolved (singlePlatformInfo m None), s2)) /\
  (forall cfg s2,
     truthyS (config m ≫= d_digest) = true ->
     getBlob env repository (interpolate (config m ≫= d_digest)) s1
     = Some (Resolved cfg, s2) ->
     getImageInfo env repository tag s
     = Some (Resolved (singlePlatformInfo m (Some cfg)), s2) /\
     length (platforms (singlePlatformInfo m (Some cfg))) = 1%nat /\
     totalSize (singlePlatformInfo m (Some cfg)) = singleTotalSize m).
Proof.
  intros Hm Hl. rewrite (getImageInfo_single _ _ _ _ _ _ Hm Hl).
  unfold tryConfigBlob. split; [repeat split|]. split; [|split].
  - intros Hd. rewrite Hd. reflexivity.
  - intros e s2 Hd Hb. rewrite Hd. unfold bind at 1.
    erewrite tryCatch_rejected; [reflexivity|].
    apply (bind_rejected _ _ _ _ _ Hb).
  - intros cfg s2 Hd Hb. rewrite Hd. unfold bind at 1.
    erewrite tryCatch_resolved; [repeat split|].
    rewrite (bind_resolved _ _ _ _ _ Hb). reflexivity.
Qed.

Lemma paginate_fails full : forall s c e w' fuel acc last,
  getCredentials s = Some c ->
  truthyS (registryUrl c) = true ->
  Forall (fun page => length page = 100%nat /\ List.last page "" <> "") full ->
  catalogFails env c full e last (world s) w' ->
  (length full < fuel)%nat ->
  exists s',
    paginate env fuel acc last s = Some (Rejected e, s') /\
    traffic s' = traffic s ++ pagination full last /\
    world s' = w'.
Proof.
  induction full as [|page full IH]; intros s c e w' fuel acc last Hc Hu Hfull Hs Hfuel;
    (destruct fuel as [|fuel]; [simpl in Hfuel; lia|]); simpl in Hs.
  - cbn [paginate].
    rewrite (bind_rejected _ _ _ _ _ (getCatalog_round _ _ _ _ _ _ Hc Hu Hs)).
    eexists. split; [reflexivity|]. split; [|reflexivity].
    simpl. now rewrite <- app_assoc.
  - destruct Hs as (w1 & Hr & Hs). inversion Hfull as [|? ? [Hlen Hlast] Hfull']; subst.
    cbn [paginate].
    rewrite (bind_resolved _ _ _ _ _ (getCatalog_round _ _ _ _ _ _ Hc Hu Hr)).
    rewrite (nextPage_full _ _ Hlen).
    destruct (String.eqb_spec (List.last page "") ""); [contradiction|].
    destruct (IH (set_world w1 (log (Fetched (EpCatalog 100 last)) (log Queued s)))
                c e w' fuel (acc ++ page) (List.last page "")) as (s' & H1 & H2 & H3);
      try assumption; [simpl in Hfuel; lia|].
    exists s'. split; [exact H1|]. split; [|exact H3].
    rewrite H2. simpl. now rewrite <- !app_assoc.
Qed.

(** X13: when the request for a page of the catalog fails after full pages
    have arrived, [getAllRepositories] is rejected with that error, after one
    throttled call per page asked for: the names already received are not
    returned. *)
Theorem getAllRepositories_fails_as_a_whole s c full e w' fuel :
  getCredentials s = Some c ->
  truthyS (registryUrl c) = true ->
  Forall (fun page => length page = 100%nat /\ List.last page "" <> "") full ->
  catalogFails env c full e "" (world s) w' ->
  (length full < fuel)%nat ->
  exists s',
    getAllRepositories env fuel s = Some (Rejected e, s') /\
    throttledCalls (traffic s') = (throttledCalls (traffic s) + length full + 1)%nat /\
    world s' = w'.
Proof.
  intros Hc Hu Hfull Hs Hfuel.
  destruct (paginate_fails full s c e w' fuel [] "" Hc Hu Hfull Hs Hfuel)
    as (s' & H1 & H2 & H3).
  exists s'. split; [exact H1|]. split; [|exact H3].
  rewrite H2, throttledCalls_app, throttledCalls_pagination. lia.
Qed.

Lemma paginate_never_ends c fuel : forall s acc last,
  getCredentials s = Some c ->
  truthyS (registryUrl c) = true ->
  (forall last w, exists page w',
     respond_catalog env c 100 last w = (Resolved (mkCatalog (Some page)), w') /\
     length page = 100%nat /\ List.last page "" <> "") ->
  paginate env fuel acc last s = None.
Proof.
  induction fuel as [|fuel IH]; intros s acc last Hc Hu Hfull; [reflexivity|].
  destruct (Hfull last (world s)) as (page & w' & Hr & Hlen & Hlast).
  cbn [paginate].
  rewrite (bind_resolved _ _ _ _ _ (getCatalog_round _ _ _ _ _ _ Hc Hu Hr)).
  rewrite (nextPage_full _ _ Hlen).
  destruct (String.eqb_spec (List.last page "") ""); [contradiction|].
  apply IH; assumption.
Qed.

(** X14: the pagination has no bound of its own: against a registry that
    answers every catalog request with a full page, [getAllRepositories] is
    still pending after any number of rounds. *)
Theorem getAllRepositories_has_no_bound s c :
  getCredentials s = Some c ->
  truthyS (registryUrl c) = true ->
  (forall last w, exists page w',
     respond_catalog env c 100 last w = (Resolved (mkCatalog (Some page)), w') /\
     length page = 100%nat /\ List.last page "" <> "") ->
  forall fuel, getAllRepositories env fuel s = None.
Proof.
  intros Hc Hu Hfull fuel. now apply (paginate_never_ends c).
Qed.

(** X15: [getTags], [getManifest], [getBlob] and [getBlobHead] each pass
    the throttler exactly once, whatever their outcome; [deleteManifest]
    does not pass it at all. *)
Theorem reads_are_throttled_delete_is_not {A B}
  (respond_head : Credentials -> string -> string -> World -> Outcome A * World)
  (respond_delete : Credentials -> string -> string -> World -> Outcome B * World)
  repository reference s :
  (forall o s', getTags env repository s = Some (o, s') ->
     throttledCalls (traffic s') = S (throttledCalls (traffic s))) /\
  (forall o s', getManifest env repository reference s = Some (o, s') ->
     throttledCalls (traffic s') = S (throttledCalls (traffic s))) /\
  (forall o s', getBlob env repository reference s = Some (o, s') ->
     throttledCalls (traffic s') = S (throttledCalls (traffic s))) /\
  (forall o s', getBlobHead respond_head repository reference s = Some (o, s') ->
     throttledCalls (traffic s') = S (throttledCalls (traffic s))) /\
  (forall o s', deleteManifest respond_delete repository reference s = Some (o, s') ->
     throttledCalls (traffic s') = throttledCalls (traffic s)).
Proof.
  repeat split; intros o s' H; try apply (throttled_request _ _ _ _ _ H).
  unfold deleteManifest, request, bind, gets, throw, modify, ask in H.
  destruct (getCredentials s) as [c|]; [|inversion H; reflexivity].
  destruct (truthyS (registryUrl c)); [|inversion H; reflexivity].
  simpl in H. destruct (respond_delete c repository reference (world s)).
  inversion H. simpl. rewrite throttledCalls_app. unfold throttledCalls. simpl. lia.
Qed.

End Facts.

Section Browser.
Context {World : Type} {Json : Type}.
Variable btoa : string -> string.
Variable JSON_parse : string -> Outcome Json.
Implicit Types (s : Sys World).

(** X16: the authorization header is absent exactly when the client has no
    credentials or its username or password is absent or empty; when
    present it starts with 'Basic '; and, for a [btoa] that is injective,
    two clients whose usernames hold no colon send the same header only with
    the same username and password. *)
Theorem auth_header_identifies_credentials s :
  (getAuthHeader btoa s = None <->
   forall c, getCredentials s = Some c ->
     truthyS (username c) && truthyS (password c) = false) /\
  (forall h, getAuthHeader btoa s = Some h -> String.prefix "Basic " h = true) /\
  ((forall x y, btoa x = btoa y -> x = y) ->
   forall s' c c',
     getCredentials s = Some c -> getCredentials s' = Some c' ->
     contains (interpolate (username c)) ":" = false ->
     contains (interpolate (username c')) ":" = false ->
     getAuthHeader btoa s <> None ->
     getAuthHeader btoa s = getAuthHeader btoa s' ->
     username c = username c' /\ password c = password c').
Proof.
  unfold getAuthHeader. split; [|split].
  - destruct (getCredentials s) as [c|]; [|split; [intros; discriminate | reflexivity]].
    destruct (truthyS (username c) && truthyS (password c)) eqn:E.
    + split; [discriminate|]. intros H. specialize (H c eq_refl). congruence.
    + split; [|reflexivity]. intros _ c' Hc'. inversion Hc'; subst. exact E.
  - intros h. destruct (getCredentials s) as [c|]; [|discriminate].
    destruct (truthyS (username c) && truthyS (password c)); [|discriminate].
    intros H. inversion H. apply ImageCacheMore.prefix_append.
  - intros Hinj s' c c' -> -> Hu Hu'.
    destruct (truthyS (username c) && truthyS (password c)) eqn:E; [|congruence].
    destruct (truthyS (username c') && truthyS (password c')) eqn:E'; [|discriminate].
    intros _ H. inversion H as [H1]. apply Hinj in H1.
    apply (ImageCacheMore.split_at_colon _ _ _ _ Hu Hu') in H1 as [H1 H2].
    apply andb_true_iff in E as [Eu Ep]. apply andb_true_iff in E' as [Eu' Ep'].
    destruct (username c), (username c'), (password c), (password c');
      try discriminate; simpl in *; subst; auto.
Qed.

(** X18: a response whose status is not a success is an error whatever its
    body says, with the fixed messages of 401 and 404; of a successful
    response a body that parses as JSON is returned parsed whatever the
    content type says, and a body that does not parse is an error under a
    JSON-like content type and is returned as raw text under any other. *)
Theorem readResponse_maps_status_and_body (r : Response) :
  (ok r = false ->
   exists e, readResponse JSON_parse r = Rejected e /\
     (status r = 401 -> e = "Authentication failed. Check your credentials.") /\
     (status r = 404 -> e = "Resource not found")) /\
  (ok r = true -> forall j,
     JSON_parse (body r) = Resolved j ->
     readResponse JSON_parse r = Resolved (Parsed j)) /\
  (ok r = true -> forall e,
     JSON_parse (body r) = Rejected e ->
     readResponse JSON_parse r =
     let contentType := default "" (orNull (contentType r)) in
     if contains contentType "application/json"
        || contains contentType "application/vnd.docker"
        || contains contentType "application/vnd.oci"
     then Rejected e else Resolved (Raw (body r))).
Proof.
  unfold readResponse. split; [|split].
  - intros ->. simpl. destruct (Z.eqb_spec (status r) 401) as [E|E].
    + eexists. split; [reflexivity|]. split; [reflexivity|]. intros; lia.
    + destruct (Z.eqb_spec (status r) 404) as [E'|E'];
        eexists; (split; [reflexivity|]); split; intros; (reflexivity || lia).
  - intros -> j ->. simpl. destruct (_ || _); reflexivity.
  - intros -> e ->. simpl. destruct (_ || _); reflexivity.
Qed.

End Browser.

(** X17: in production one slash at the end of the registry URL does not
    matter: the URL of a request is the registry URL without it, followed by
    ['/v2'] and the endpoint; a URL that ends otherwise is taken whole. *)
Theorem getApiUrl_drops_one_trailing_slash {World} (s : Sys World) c u a endpoint :
  getCredentials s = Some c ->
  (registryUrl c = Some (u +:+ "/") ->
   getApiUrl false endpoint s = Resolved (u +:+ "/v2" +:+ endpoint)) /\
  (a <> "/"%char -> registryUrl c = Some (u +:+ String a "") ->
   getApiUrl false endpoint s
   = Resolved ((u +:+ String a "") +:+ "/v2" +:+ endpoint)).
Proof.
  intros Hc. unfold getApiUrl. rewrite Hc. split.
  - intros ->. simpl. rewrite dropTrailingSlash_slash.
    destruct u; reflexivity.
  - intros Ha ->. simpl. rewrite (dropTrailingSlash_other _ _ Ha).
    destruct u; reflexivity.
Qed.

Lemma getApiUrl_drops_one_trailing_slash_witness :
  getApiUrl false "/_catalog?n=100" MockRest.anonymous
  = Resolved "https://registry.example.com/v2/_catalog?n=100" /\
  getApiUrl false "/_catalog?n=100" Mock.start
  = Resolved "https://registry.example.com/v2/_catalog?n=100".
Proof.
  split.
  - apply (proj1 (getApiUrl_drops_one_trailing_slash MockRest.anonymous
                    (mkCredentials (Some "https://registry.example.com/")
                       (Some "user") (Some ""))
                    "https://registry.example.com" "m" "/_catalog?n=100" eq_refl)).
    reflexivity.
  - apply (proj2 (getApiUrl_drops_one_trailing_slash Mock.start Mock.creds
                    "https://registry.example.co" "m" "/_catalog?n=100" eq_refl)).
    + discriminate.
    + reflexivity.
Defined.

Lemma auth_header_identifies_credentials_witness :
  getAuthHeader (fun x => x) MockRest.anonymous = None /\
  getAuthHeader (fun x => x) Mock.start = Some "Basic user:secret" /\
  (username Mock.creds = Some "user" /\ password Mock.creds = Some "secret").
Proof.
  destruct (auth_header_identifies_credentials (fun x => x) Mock.start)
    as (_ & _ & Hinj).
  destruct (auth_header_identifies_credentials (fun x => x) MockRest.anonymous)
    as (Hnone & _ & _).
  split; [|split].
  - apply Hnone. intros c Hc. inversion Hc. reflexivity.
  - reflexivity.
  - apply (Hinj (fun x y H => H) Mock.start Mock.creds Mock.creds);
      (reflexivity || discriminate).
Defined.

Lemma readResponse_maps_status_and_body_witness :
  readResponse MockRest.parseEmptyObject
    (mkResponse false 401 "Unauthorized" (Some "application/json") "{}")
  = Rejected "Authentication failed. Check your credentials." /\
  readResponse MockRest.parseEmptyObject
    (mkResponse true 200 "OK" (Some "application/octet-stream") "{}")
  = Resolved (Parsed tt) /\
  readResponse MockRest.parseEmptyObject
    (mkResponse true 200 "OK" (Some "application/octet-stream") "")
  = Resolved (Raw "") /\
  readResponse MockRest.parseEmptyObject
    (mkResponse true 200 "OK" (Some "application/vnd.docker.container.image.v1+json") "")
  = Rejected "Unexpected token in JSON".
Proof.
  split; [|split; [|split]].
  - destruct (readResponse_maps_status_and_body MockRest.parseEmptyObject
                (mkResponse false 401 "Unauthorized" (Some "application/json") "{}"))
      as (H & _ & _).
    destruct (H eq_refl) as (e & -> & He & _). rewrite (He eq_refl). reflexivity.
  - apply (proj1 (proj2 (readResponse_maps_status_and_body MockRest.parseEmptyObject
                           (mkResponse true 200 "OK" (Some "application/octet-stream") "{}")))).
    + reflexivity.
    + reflexivity.
  - rewrite (proj2 (proj2 (readResponse_maps_status_and_body MockRest.parseEmptyObject
                             (mkResponse true 200 "OK" (Some "application/octet-stream") "")))
               eq_refl "Unexpected token in JSON" eq_refl).
    reflexivity.
  - rewrite (proj2 (proj2 (readResponse_maps_status_and_body MockRest.parseEmptyObject
                             (mkResponse true 200 "OK"
                                (Some "application/vnd.docker.container.image.v1+json") "")))
               eq_refl "Unexpected token in JSON" eq_refl).
    reflexivity.
Defined.

Lemma unconfigured_client_asks_nothing_witness :
  getImageInfo (Mock.env Mock.notFound) "library/app" "latest" Mock.pageLoad
  = Some (Rejected "Registry URL not configured", log Queued Mock.pageLoad) /\
  getAllRepositories (Mock.env Mock.notFound) 1 Mock.pageLoad
  = Some (Rejected "Registry URL not configured", log Queued Mock.pageLoad).
Proof.
  destruct (unconfigured_client_asks_nothing (Mock.env Mock.notFound)
              Mock.pageLoad "library/app" "latest" 0) as (_ & Hi & Ha & _).
  - intros c Hc. discriminate Hc.
  - split; [exact Hi | exact Ha].
Defined.

Lemma testConnection_reports_instead_of_throwing_witness :
  exists s',
    testConnection (Mock.env Mock.notFound) Mock.start
    = Some (Resolved (mkConnection false (Some "Resource not found")), s').
Proof.
  destruct (testConnection_reports_instead_of_throwing (Mock.env Mock.notFound)
              Mock.start) as (r & s' & H & _ & _ & _ & _ & _ & Hr).
  exists s'. rewrite H. rewrite (Hr Mock.creds eq_refl eq_refl). reflexivity.
Defined.

Lemma getImageInfo_rejects_iff_manifest_witness :
  getImageInfo (Mock.env Mock.notFound) "library/app" "latest" Mock.start
  = Some (Rejected "Resource not found",
          log (Fetched (EpManifest "library/app" "latest")) (log Queued Mock.start)).
Proof.
  apply (proj2 (getImageInfo_rejects_iff_manifest (Mock.env Mock.notFound)
                  "library/app" "latest" Mock.start "Resource not found"
                  (log (Fetched (EpManifest "library/app" "latest"))
                     (log Queued Mock.start)))).
  reflexivity.
Defined.

Lemma getImageInfo_makes_one_to_three_calls_witness :
  exists o s',
    getImageInfo (Mock.env (Mock.serving Mock.listManifest)) "library/app" "latest"
      Mock.start = Some (o, s') /\
    (1 <= throttledCalls (traffic s') /\ throttledCalls (traffic s') <= 3)%nat.
Proof.
  eexists _, _. split; [reflexivity|].
  apply (getImageInfo_makes_one_to_three_calls
           (Mock.env (Mock.serving Mock.listManifest)) "library/app" "latest"
           Mock.start _ _ eq_refl).
Defined.

Lemma single_platform_config_is_optional_witness :
  exists info s',
    getImageInfo (Mock.env (Mock.serving Mock.singleManifest)) "library/app" "latest"
      Mock.start = Some (Resolved info, s') /\
    platforms info = [] /\ created info = None /\ totalSize info = 65.
Proof.
  destruct (single_platform_config_is_optional
              (Mock.env (Mock.serving Mock.singleManifest)) "library/app" "latest"
              Mock.start Mock.singleManifest
              (log (Fetched (EpManifest "library/app" "latest")) (log Queued Mock.start))
              eq_refl eq_refl) as (_ & _ & Hfail & _).
  eexists _, _. split.
  - apply (Hfail "Resource not found"); reflexivity.
  - repeat split.
Defined.

Lemma getAllRepositories_fails_as_a_whole_witness :
  exists s',
    getAllRepositories (Mock.env MockRest.failingSecondPage) 2 Mock.start
    = Some (Rejected "Registry API error: 502 Bad Gateway", s') /\
    throttledCalls (traffic s') = 2%nat.
Proof.
  destruct (getAllRepositories_fails_as_a_whole (Mock.env MockRest.failingSecondPage)
              Mock.start Mock.creds [firstn 100 Mock.names]
              "Registry API error: 502 Bad Gateway" tt 2)
    as (s' & H & Hn & _).
  - reflexivity.
  - reflexivity.
  - repeat constructor; vm_compute; discriminate.
  - exists tt. split; reflexivity.
  - simpl. lia.
  - exists s'. split; [exact H | exact Hn].
Defined.

Lemma getAllRepositories_has_no_bound_witness :
  getAllRepositories (Mock.env MockRest.endless) 50 Mock.start = None.
Proof.
  apply (getAllRepositories_has_no_bound (Mock.env MockRest.endless)
           Mock.start Mock.creds eq_refl eq_refl).
  intros last []. exists (firstn 100 Mock.names), tt.
  split; [reflexivity|]. split; [reflexivity|]. vm_compute. discriminate.
Defined.

Lemma reads_are_throttled_delete_is_not_witness :
  exists o s',
    deleteManifest (fun _ _ _ w => (@Resolved unit tt, w)) "library/app" "sha256:amd64"
      Mock.start = Some (o, s') /\
    throttledCalls (traffic s') = 0%nat.
Proof.
  eexists _, _. split; [reflexivity|].
  apply (proj2 (proj2 (proj2 (proj2
           (reads_are_throttled_delete_is_not (Mock.env Mock.notFound)
              (fun _ _ _ w => (@Resolved unit tt, w))
              (fun _ _ _ w => (@Resolved unit tt, w))
              "library/app" "sha256:amd64" Mock.start)))) _ _ eq_refl).
Defined.

End RegistryApiMore.

(** ** More on the composable and the credential store *)
Module UseRegistryMore.
Import RegistryApi UseRegistry UseRegistryRest Spec SpecRest.
Import RegistryApiFacts UseRegistryFacts.

Section Facts.
Context {World : Type} (env : Env World).
Implicit Types (s : Sys World).










Lemma neverRejects_cache_save save : neverRejects (cache_save env save).
Proof. intros s o s' H. unfold cache_save in H. inversion H. eauto. Qed.





Lemma reconnect_nothing_stored fuel s :
  memoryCredentials s = None -> sessionStorage s = None ->
  reconnect env fuel s
  = Some (Resolved false,
          set_state (set_isInitializing false (state s)) (set_credentials None s)).
Proof.
  intros Hm Hs.
  assert (Hinit : initCredentials env s = Some (Resolved None, set_credentials None s)).
  { unfold initCredentials, CredentialStore.load, bind, gets, ret, modify.
    rewrite Hm, Hs. reflexivity. }
  unfold reconnect. erewrite tryFinally_assign.
  2:{ rewrite (bind_resolved _ _ _ _ _ Hinit).
      unfold gets at 1. unfold bind at 1.
      unfold isAuthenticated, getCredentials, CredentialStore.getSync. simpl.
      rewrite Hm. reflexivity. }
  reflexivity.
Qed.


(** X21: with no credentials in memory and none in [sessionStorage],
    [reconnect] answers [false], releases [isInitializing] and does nothing
    else: no request is made and the connected flag is as it was. *)
Theorem reconnect_without_credentials fuel s :
  memoryCredentials s = None -> sessionStorage s = None ->
  exists s',
    reconnect env fuel s = Some (Resolved false, s') /\
    traffic s' = traffic s /\ world s' = world s /\
    ui_isConnected (state s') = ui_isConnected (state s) /\
    ui_isInitializing (state s') = false /\
    isAuthenticated s' = false.
Proof.
  intros Hm Hs. rewrite (reconnect_nothing_stored fuel s Hm Hs).
  eexists. split; [reflexivity|]. repeat split.
  unfold isAuthenticated, getCredentials, CredentialStore.getSync. simpl.
  now rewrite Hm.
Qed.




(** X30: [clearCache] empties the cache in [localStorage] and leaves what is
    in memory: afterwards every read of the cache misses, and yet the tags
    and the image infos already noted in memory are still answered from
    there, without a request. *)
Theorem clearCache_leaves_the_memo repository tag s :
  exists s1,
    clearCache s = Some (Resolved tt, s1) /\
    state s1 = state s /\ traffic s1 = traffic s /\
    cache_get env (ImageCache.getTags (parse_names env) repository) s1
    = Some (Resolved None, s1) /\
    cache_get env (ImageCache.getImageInfo (parse_info env) repository tag) s1
    = Some (Resolved None, s1) /\
    (forall tags, ui_tags (state s) !! repository = Some tags ->
       loadTags env repository s1 = Some (Resolved tags, s1)) /\
    (forall info, ui_imageInfos (state s) !! (repository +:+ ":" +:+ tag) = Some info ->
       loadImageInfo env repository tag s1 = Some (Resolved (Some info), s1)).
Proof.
  unfold clearCache, modify. eexists. split; [reflexivity|].
  split; [reflexivity|]. split; [reflexivity|].
  assert (Hmiss : forall {Val} (parse : string -> option (ImageCache.CacheEntry Val)) ns now,
            ImageCache.get parse ns now (ImageCacheRest.clearAll (localStorage s))
            = (None, ImageCacheRest.clearAll (localStorage s))).
  { intros Val parse ns now. rewrite ImageCacheFacts.get_at.
    rewrite ImageCacheMore.clearAll_lookup, ImageCacheMore.keyOf_prefixed.
    reflexivity. }
  split; [|split; [|split]].
  - unfold cache_get.
    pose proof (Hmiss _ (parse_names env) (ImageCache.TagsOf repository)
                  (Date_now env (world s))) as H.
    cbn [ImageCache.get] in H. cbn [localStorage world set_localStorage].
    now rewrite H.
  - unfold cache_get.
    pose proof (Hmiss _ (parse_info env) (ImageCache.ImageInfoOf repository tag)
                  (Date_now env (world s))) as H.
    cbn [ImageCache.get] in H. cbn [localStorage world set_localStorage].
    now rewrite H.
  - intros tags Hmemo. unfold loadTags, bind, gets. simpl. now rewrite Hmemo.
  - intros info Hmemo. unfold loadImageInfo, bind, gets. simpl. now rewrite Hmemo.
Qed.

(** X27: [clearImageCache] removes the cache entry and the two memo entries
    of one image and nothing else, so that the next [loadImageInfo] for it
    misses memo and cache and answers what the registry answers. *)
Theorem clearImageCache_forces_a_refetch repository tag s :
  let key := repository +:+ ":" +:+ tag in
  exists s1,
    clearImageCache repository tag s = Some (Resolved tt, s1) /\
    ui_imageInfos (state s1) !! key = None /\
    ui_manifests (state s1) !! key = None /\
    localStorage s1 !! ImageCache.getKey ImageCache.IMAGE_INFO key = None /\
    (forall k, k <> key ->
       ui_imageInfos (state s1) !! k = ui_imageInfos (state s) !! k /\
       ui_manifests (state s1) !! k = ui_manifests (state s) !! k) /\
    (forall k, k <> ImageCache.getKey ImageCache.IMAGE_INFO key ->
       localStorage s1 !! k = localStorage s !! k) /\
    ui_tags (state s1) = ui_tags (state s) /\
    forall info s2,
      getImageInfo env repository tag s1 = Some (Resolved info, s2) ->
      exists s3, loadImageInfo env repository tag s1 = Some (Resolved (Some info), s3).
Proof.
  intros key. unfold clearImageCache. rewrite bind_modify, !bind_assign.
  eexists. split; [reflexivity|]. simpl.
  split; [apply lookup_delete_eq|]. split; [apply lookup_delete_eq|].
  split; [apply lookup_delete_eq|].
  split; [intros k Hk; split; now apply lookup_delete_ne|].
  split; [intros k Hk; now apply lookup_delete_ne|].
  split; [reflexivity|].
  intros info s2 Hget. eexists.
  unfold loadImageInfo, bind at 1, gets. simpl. fold key.
  rewrite lookup_delete_eq. apply tryCatch_resolved.
  unfold bind at 1, cache_get, ImageCache.getImageInfo. simpl.
  unfold ImageCache.clearImageInfo. fold key. rewrite lookup_delete_eq.
  etransitivity; [apply (bind_resolved _ _ _ _ _ Hget)|].
  rewrite !bind_assign. unfold cache_save, bind, ret. reflexivity.
Qed.

Lemma orNull_idem (a : option string) : orNull (orNull a) = orNull a.
Proof. unfold orNull. destruct (truthyS a) eqn:E; [now rewrite E | reflexivity]. Qed.

Lemma orNull_truthy (a : option string) : truthyS a = true -> orNull a = a.
Proof. unfold orNull. now intros ->. Qed.

(** X28: whatever way [save] takes and however it ends, the credentials are
    in memory afterwards and [load] answers them without asking the browser;
    [localStorage] is never written; when the browser's credential manager
    took the password, [sessionStorage] holds the registry URL and neither
    username nor password; and when [save] throws, [sessionStorage] is as it
    was. *)
Theorem save_keeps_credentials_in_memory registryUrl username password s o s1 :
  CredentialStore.save env registryUrl username password s = Some (o, s1) ->
  memoryCredentials s1 = Some (mkCredentials registryUrl username password) /\
  CredentialStore.load env s1
  = Some (Resolved (Some (mkCredentials registryUrl username password)), s1) /\
  localStorage s1 = localStorage s /\
  (o = Resolved "credential-api" ->
   sessionStorage s1 = Some (mkSessionData registryUrl None None true)) /\
  (o = Resolved "session-storage" ->
   sessionStorage s1
   = Some (mkSessionData registryUrl (orNull username) (orNull password) false)) /\
  (forall e, o = Rejected e -> sessionStorage s1 = sessionStorage s).
Proof.
  intros H.
  assert (Hall : memoryCredentials s1 = Some (mkCredentials registryUrl username password) /\
                 localStorage s1 = localStorage s /\
                 (o = Resolved "credential-api" ->
                  sessionStorage s1 = Some (mkSessionData registryUrl None None true)) /\
                 (o = Resolved "session-storage" ->
                  sessionStorage s1
                  = Some (mkSessionData registryUrl (orNull username) (orNull password) false)) /\
                 (forall e, o = Rejected e -> sessionStorage s1 = sessionStorage s)).
  { unfold CredentialStore.save in H. rewrite bind_modify in H.
    unfold bind, tryCatch, ask, ret, CredentialStore.session_setItem in H.
    simpl in H.
    destruct (supportsCredentialAPI env && truthyS username && truthyS password);
      simpl in H.
    - destruct (credentials_store env _ _ (world s)) as [[[]|e] w]; simpl in H;
        repeat (destruct (session_setItem_throws env _); simpl in H);
        inversion H; subst; simpl; repeat split; (discriminate || reflexivity).
    - destruct (session_setItem_throws env _); simpl in H;
        inversion H; subst; simpl; repeat split; (discriminate || reflexivity). }
  destruct Hall as (Hm & Hrest). split; [exact Hm|]. split; [|exact Hrest].
  unfold CredentialStore.load, bind, gets, ret. now rewrite Hm.
Qed.

(** X29: a new page of the same session finds in [sessionStorage] what the
    session-storage way of [save] left there. [load] restores it when the
    registry URL is not empty, with the empty string for an absent or empty
    username or password, so exactly when both were given; it answers
    [null] when the registry URL is empty. *)
Theorem load_restores_the_session registryUrl username password s :
  memoryCredentials s = None ->
  sessionStorage s
  = Some (mkSessionData registryUrl (orNull username) (orNull password) false) ->
  (truthyS registryUrl = true ->
   exists s',
     CredentialStore.load env s
     = Some (Resolved (Some (mkCredentials registryUrl
                               (Some (default "" (orNull username)))
                               (Some (default "" (orNull password))))), s') /\
     world s' = world s /\
     (truthyS username = true -> truthyS password = true ->
      memoryCredentials s' = Some (mkCredentials registryUrl username password))) /\
  (truthyS registryUrl = false ->
   CredentialStore.load env s = Some (Resolved None, s)).
Proof.
  intros Hm Hs. unfold CredentialStore.load, bind, gets, ret, modify.
  rewrite Hm, Hs. simpl. rewrite !orNull_idem. split.
  - intros ->. eexists. split; [reflexivity|]. split; [reflexivity|].
    intros Hu Hp. simpl. rewrite (orNull_truthy _ Hu), (orNull_truthy _ Hp).
    destruct username, password; try discriminate. reflexivity.
  - intros ->. reflexivity.
Qed.

End Facts.

Lemma prefix_refl (x : string) : String.prefix x x = true.
Proof.
  induction x as [|a x IH]; simpl; [reflexivity|].
  destruct (Ascii.ascii_dec a a); [exact IH | congruence].
Qed.

Lemma contains_refl (x : string) : RegistryApiRest.contains x x = true.
Proof.
  destruct x as [|a x]; [reflexivity|].
  change (RegistryApiRest.contains (String a x) (String a x))
    with (String.prefix (String a x) (String a x)
          || RegistryApiRest.contains x (String a x)).
  now rewrite prefix_refl.
Qed.

Lemma filter_sublist {A} (f : A -> bool) (l : list A) : sublist (List.filter f l) l.
Proof.
  induction l as [|x l IH]; simpl; [constructor|].
  destruct (f x); now constructor.
Qed.

Section Filter.
Context {World : Type}.
Variable toLowerCase : string -> string.
Implicit Types (s : Sys World).

(** X25: the repository filter shows everything when it is empty, and
    otherwise a selection of the repositories in their order; a repository
    whose lower-cased name is the lower-cased filter is always shown; and,
    for an idempotent [toLowerCase], the filter in any case and the filter
    in lower case show the same repositories. *)
Theorem repository_filter_ignores_case s :
  (ui_filter (state s) = "" ->
   filteredRepositories toLowerCase s = ui_repositories (state s)) /\
  sublist (filteredRepositories toLowerCase s) (ui_repositories (state s)) /\
  (forall repo,
     In repo (ui_repositories (state s)) ->
     toLowerCase repo = toLowerCase (ui_filter (state s)) ->
     In repo (filteredRepositories toLowerCase s)) /\
  ((forall x, toLowerCase (toLowerCase x) = toLowerCase x) ->
   ui_filter (state s) <> "" ->
   toLowerCase (ui_filter (state s)) <> "" ->
   exists s',
     setFilter (toLowerCase (ui_filter (state s))) s = Some (Resolved tt, s') /\
     filteredRepositories toLowerCase s' = filteredRepositories toLowerCase s).
Proof.
  unfold filteredRepositories. split; [|split; [|split]].
  - intros ->. reflexivity.
  - destruct (String.eqb _ _); [reflexivity | apply filter_sublist].
  - intros repo Hin Heq. destruct (String.eqb _ _); [exact Hin|].
    apply filter_In. split; [exact Hin|]. rewrite Heq. apply contains_refl.
  - intros Hidem Hne Hne'. eexists. split; [reflexivity|]. simpl.
    destruct (String.eqb_spec (toLowerCase (ui_filter (state s))) ""); [contradiction|].
    destruct (String.eqb_spec (ui_filter (state s)) ""); [contradiction|].
    now rewrite Hidem.
Qed.

End Filter.

(** X26: the platforms that [getValidPlatforms] keeps are exactly those for
    which [formatPlatform] has a label: a platform with neither an operating
    system nor an architecture is dropped and has none. *)
Theorem shown_platforms_have_labels (ps : list PlatformDescriptor) p :
  In p (ImageDetails.getValidPlatforms (Some ps)) <->
  In p ps /\ ImageDetails.formatPlatform (Some p) <> None.
Proof.
  unfold ImageDetails.getValidPlatforms, ImageDetails.formatPlatform.
  rewrite filter_In.
  destruct (truthyS (pd_os p)), (truthyS (pd_architecture p)); simpl;
    destruct (truthyS (pd_variant p)); split; intros [H1 H2]; split;
    try assumption; try reflexivity; try discriminate; try congruence.
Qed.


Lemma reconnect_without_credentials_witness :
  exists s',
    reconnect (Mock.env MockRest.tagged) 3
      (mkSys None None None ∅ initialUi [] tt) = Some (Resolved false, s') /\
    traffic s' = [] /\ ui_isInitializing (state s') = false.
Proof.
  destruct (reconnect_without_credentials (Mock.env MockRest.tagged) 3
              (mkSys None None None ∅ initialUi [] tt) eq_refl eq_refl)
    as (s' & H & Ht & _ & _ & Hi & _).
  exists s'. split; [exact H|]. split; [exact Ht | exact Hi].
Defined.




Lemma clearImageCache_forces_a_refetch_witness :
  exists s1 s3 info,
    clearImageCache "library/app" "latest" Mock.start = Some (Resolved tt, s1) /\
    loadImageInfo (Mock.env (Mock.serving Mock.singleManifest)) "library/app" "latest" s1
    = Some (Resolved (Some info), s3).
Proof.
  destruct (clearImageCache_forces_a_refetch (Mock.env (Mock.serving Mock.singleManifest))
              "library/app" "latest" Mock.start)
    as (s1 & Hclear & _ & _ & _ & _ & _ & _ & Hrefetch).
  assert (Hrun : exists info s2,
             getImageInfo (Mock.env (Mock.serving Mock.singleManifest))
               "library/app" "latest" s1 = Some (Resolved info, s2)).
  { unfold clearImageCache in Hclear. inversion Hclear. eexists _, _. reflexivity. }
  destruct Hrun as (info & s2 & Hrun).
  destruct (Hrefetch info s2 Hrun) as (s3 & H3).
  exists s1, s3, info. split; [exact Hclear | exact H3].
Defined.

Lemma clearCache_leaves_the_memo_witness :
  let s := set_state (UseRegistry.set_tags {["library/app" := ["latest"]]} initialUi)
             Mock.start in
  exists s1,
    clearCache s = Some (Resolved tt, s1) /\
    loadTags (Mock.env Mock.notFound) "library/app" s1 = Some (Resolved ["latest"], s1).
Proof.
  cbv zeta.
  destruct (clearCache_leaves_the_memo (Mock.env Mock.notFound) "library/app" "latest"
              (set_state (UseRegistry.set_tags {["library/app" := ["latest"]]} initialUi)
                 Mock.start))
    as (s1 & Hclear & _ & _ & _ & _ & Htags & _).
  exists s1. split; [exact Hclear|]. apply Htags. reflexivity.
Defined.

Lemma save_keeps_credentials_in_memory_witness :
  exists s1,
    CredentialStore.save (Mock.env Mock.notFound) (Some "https://registry.example.com")
      (Some "user") (Some "secret") Mock.pageLoad
    = Some (Resolved "session-storage", s1) /\
    CredentialStore.load (Mock.env Mock.notFound) s1
    = Some (Resolved (Some Mock.creds), s1) /\
    localStorage s1 = ∅.
Proof.
  eexists. split; [reflexivity|].
  destruct (save_keeps_credentials_in_memory (Mock.env Mock.notFound)
              (Some "https://registry.example.com") (Some "user") (Some "secret")
              Mock.pageLoad _ _ eq_refl) as (_ & Hload & Hls & _).
  split; [exact Hload | exact Hls].
Defined.

Lemma load_restores_the_session_witness :
  exists s',
    CredentialStore.load (Mock.env Mock.notFound) Mock.pageLoad
    = Some (Resolved (Some Mock.creds), s') /\
    memoryCredentials s' = Some Mock.creds.
Proof.
  destruct (proj1 (load_restores_the_session (Mock.env Mock.notFound)
                     (Some "https://registry.example.com") (Some "user") (Some "secret")
                     Mock.pageLoad eq_refl eq_refl) eq_refl)
    as (s' & H & _ & Hm).
  exists s'. split; [exact H | exact (Hm eq_refl eq_refl)].
Defined.

Lemma repository_filter_ignores_case_witness :
  let s := set_state (UseRegistry.set_filter "APP"
                        (UseRegistry.set_repositories
                           ["library/app"; "library/web"; "App"] initialUi))
             Mock.start in
  filteredRepositories MockRest.toLowerCase s = ["library/app"; "App"] /\
  exists s',
    setFilter "app" s = Some (Resolved tt, s') /\
    filteredRepositories MockRest.toLowerCase s'
    = filteredRepositories MockRest.toLowerCase s.
Proof.
  cbv zeta. split; [reflexivity|].
  apply (proj2 (proj2 (proj2
           (repository_filter_ignores_case MockRest.toLowerCase
              (set_state (UseRegistry.set_filter "APP"
                            (UseRegistry.set_repositories
                               ["library/app"; "library/web"; "App"] initialUi))
                 Mock.start))))).
  - induction x as [|a x IH]; [reflexivity|]. simpl. rewrite IH. f_equal.
    unfold MockRest.lowerAscii.
    destruct ((65 <=? nat_of_ascii a) && (nat_of_ascii a <=? 90))%nat eqn:E.
    + rewrite nat_ascii_embedding.
      * destruct ((65 <=? nat_of_ascii a + 32) && (nat_of_ascii a + 32 <=? 90))%nat eqn:E';
          [|reflexivity].
        apply andb_true_iff in E as [E1 E2]. apply andb_true_iff in E' as [E3 E4].
        apply Nat.leb_le in E1, E2, E3, E4. lia.
      * apply andb_true_iff in E as [E1 E2]. apply Nat.leb_le in E2. lia.
    + now rewrite E.
  - discriminate.
  - discriminate.
Defined.

Lemma shown_platforms_have_labels_witness :
  In (mkPD (Some "linux") (Some "amd64") None (Some "sha256:amd64") (Some 100))
    (ImageDetails.getValidPlatforms
       (Some [mkPD None None None (Some "sha256:att") (Some 40);
              mkPD (Some "linux") (Some "amd64") None (Some "sha256:amd64") (Some 100)])).
Proof.
  apply (proj2 (shown_platforms_have_labels _ _)). split.
  - right. left. reflexivity.
  - discriminate.
Defined.

End UseRegistryMore.
